(** * Gold premium dashboard ([app.py]): model and properties

    The script fetches the London gold quote (XAU, USD per troy ounce) and
    the USD/CNY rate from a text endpoint, converts the quote to CNY per
    gram, and compares it with a retail price typed by the user.

    Python [float] is IEEE-754 binary64: it is modelled by Rocq's primitive
    [float], whose operations are the same binary64 operations (rounding to
    nearest, ties to even).  What Python adds on top is written out:
    [x / y] raises [ZeroDivisionError] when [y == 0]. *)

From Stdlib Require Import Floats ZArith QArith Qround Qpower Lia Lqa.
From Stdlib Require Import Bool PeanoNat String Ascii List.
From Stdlib Require Uint63.
Import ListNotations.
Set Warnings "-inexact-float".

(** ** Python values and builtins used by the script *)
Module Py.

(** The exceptions the script can meet. *)
Inductive exn : Set :=
| RequestException   (* requests.get: connection failure or timeout *)
| AttributeError     (* [re.search(...)] gave [None], then [.group(1)] *)
| IndexError         (* [rate_list[1]] on a one-element list *)
| ValueError         (* [float(s)] on a string that is no number *)
| ZeroDivisionError. (* [x / y] with [y == 0] *)

Inductive result (A : Type) : Type :=
| Ok (a : A)
| Raise (e : exn).
Arguments Ok {A} a.
Arguments Raise {A} e.

Definition bind {A B : Type} (r : result A) (k : A -> result B) : result B :=
  match r with
  | Ok a => k a
  | Raise e => Raise e
  end.

(** [x / y] on floats. *)
Definition truediv (x y : float) : result float :=
  if (y =? 0)%float then Raise ZeroDivisionError else Ok (x / y)%float.

Definition dquote : ascii := "034"%char.
Definition newline : ascii := "010"%char.
Definition comma : ascii := ","%char.

(** [strip_prefix p s]: the rest of [s] after [p], when [s] starts with [p]. *)
Fixpoint strip_prefix (p s : string) : option string :=
  match p, s with
  | EmptyString, _ => Some s
  | String a p', String b s' =>
      if Ascii.eqb a b then strip_prefix p' s' else None
  | String _ _, EmptyString => None
  end.

(** The lazy group [(.*?)] followed by the literal [closing]: the shortest
    run of characters other than newline after which [closing] stands. *)
Fixpoint lazy_group (closing s : string) : option string :=
  match strip_prefix closing s with
  | Some _ => Some EmptyString
  | None =>
      match s with
      | EmptyString => None
      | String c s' =>
          if Ascii.eqb c newline then None
          else option_map (String c) (lazy_group closing s')
      end
  end.

(** [re.search(opening + "(.*?)" + closing, text)], both ends literal:
    group 1 of the leftmost match, [None] when nothing matches. *)
Fixpoint re_search (opening closing text : string) : option string :=
  let here :=
    match strip_prefix opening text with
    | Some rest => lazy_group closing rest
    | None => None
    end in
  match here with
  | Some g => Some g
  | None =>
      match text with
      | EmptyString => None
      | String _ text' => re_search opening closing text'
      end
  end.

(** [m.group(1)] on the result of [re.search]. *)
Definition group1 (m : option string) : result string :=
  match m with
  | Some g => Ok g
  | None => Raise AttributeError
  end.

(** [s.split(sep)] for a one-character separator: never empty. *)
Fixpoint split (sep : ascii) (s : string) : list string :=
  match s with
  | EmptyString => [EmptyString]
  | String c s' =>
      if Ascii.eqb c sep then EmptyString :: split sep s'
      else match split sep s' with
           | w :: ws => String c w :: ws
           | [] => [String c EmptyString]
           end
  end.

(** [xs[i]] for [i >= 0]. *)
Definition index {A : Type} (xs : list A) (i : nat) : result A :=
  match nth_error xs i with
  | Some x => Ok x
  | None => Raise IndexError
  end.

(** [sep.join(parts)]. *)
Fixpoint join (sep : ascii) (parts : list string) : string :=
  match parts with
  | [] => EmptyString
  | [w] => w
  | w :: ws => w ++ String sep (join sep ws)
  end.

(** [c in s]. *)
Fixpoint contains (c : ascii) (s : string) : bool :=
  match s with
  | EmptyString => false
  | String a s' => Ascii.eqb a c || contains c s'
  end.

End Py.

Import Py.

Declare Scope py_scope.
Notation "x <- r ;; k" := (Py.bind r (fun x => k))
  (at level 61, r at next level, right associativity) : py_scope.
Open Scope py_scope.

(** ** The script *)
Module App.

(** What [requests.get(url, headers=headers, timeout=5)] comes back with. *)
Inductive http_result : Type :=
| RequestFailed
| Response (text : string).

Definition requests_get (net : http_result) : result string :=
  match net with
  | RequestFailed => Raise RequestException
  | Response text => Ok text
  end.

(** What the script puts on the page through [st.error]. *)
Inductive message : Type :=
| FetchFailed (e : exn)   (* st.error(f"...: {e}") in get_realtime_data *)
| Connecting.             (* st.error(...) of the final else branch *)

(** The three values of [state_msg]. *)
Inductive band : Set :=
| Low        (* else: premium low *)
| Moderate   (* elif premium_rate > 20 *)
| High.      (* if premium_rate > 30 *)

Definition band_rank (b : band) : nat :=
  match b with
  | Low => 0
  | Moderate => 1
  | High => 2
  end.

Definition band_le (a b : band) : Prop := (band_rank a <= band_rank b)%nat.

Record PremiumResult : Set := {
  intl_gold_cny_g : float;
  price_diff : float;
  premium_rate : float
}.

(** What a run of lines 97-198 ends with. *)
Inductive view : Set :=
| Dashboard (r : PremiumResult) (state : band)
| Unavailable.

Definition GRAMS_PER_OUNCE : float := 31.1035%float.
Definition ttl : Z := 30.

Definition opening_xau : string :=
  ("hq_str_hf_XAU=" ++ String dquote EmptyString)%string.
Definition opening_rate : string :=
  ("hq_str_fx_susdcny=" ++ String dquote EmptyString)%string.
Definition closing : string := String dquote ";"%string.

(** Lines 137-143. *)
Definition state_msg (premium_rate : float) : band :=
  if (30 <? premium_rate)%float then High
  else if (20 <? premium_rate)%float then Moderate
  else Low.

(** Lines 107-108, from the converted cost. *)
Definition premium (ctf_price_input intl_gold_cny_g : float) : result PremiumResult :=
  let price_diff := (ctf_price_input - intl_gold_cny_g)%float in
  q <- truediv price_diff intl_gold_cny_g ;;
  Ok {| intl_gold_cny_g := intl_gold_cny_g;
        price_diff := price_diff;
        premium_rate := (q * 100)%float |}.

(** Line 104. *)
Definition convert (xau_price exchange_rate : float) : result float :=
  truediv (xau_price * exchange_rate)%float GRAMS_PER_OUNCE.

(** Lines 99-198: what is computed and shown from the fetched pair. *)
Definition render (xau_price exchange_rate ctf_price_input : float) : result view :=
  if (0 <? xau_price)%float then
    cost <- convert xau_price exchange_rate ;;
    r <- premium ctf_price_input cost ;;
    Ok (Dashboard r (state_msg (premium_rate r)))
  else Ok Unavailable.

Section Fetcher.

(** Python's [float(s)]: the number a string denotes, [None] for
    [ValueError]. *)
Variable float_of_str : string -> option float.

Definition py_float (s : string) : result float :=
  match float_of_str s with
  | Some x => Ok x
  | None => Raise ValueError
  end.

(** Lines 46-62: the body of the [try]. *)
Definition fetch_body (net : http_result) : result (float * float) :=
  text <- requests_get net ;;
  xau_str <- group1 (re_search opening_xau closing text) ;;
  xau_first <- index (split comma xau_str) 0 ;;
  xau_price <- py_float xau_first ;;
  rate_str <- group1 (re_search opening_rate closing text) ;;
  rate_second <- index (split comma rate_str) 1 ;;
  usd_cny_rate <- py_float rate_second ;;
  Ok (xau_price, usd_cny_rate).

(** Lines 36-66: the pair returned and what [st.error] showed. *)
Definition get_realtime_data (net : http_result) : (float * float) * list message :=
  match fetch_body net with
  | Ok q => (q, [])
  | Raise e => ((0%float, 0%float), [FetchFailed e])
  end.

(** One run of the script without the cache: the messages shown, and the
    view or the exception the run ends with. *)
Definition script (net : http_result) (ctf_price_input : float)
  : list message * result view :=
  let '((xau_price, exchange_rate), shown) := get_realtime_data net in
  match render xau_price exchange_rate ctf_price_input with
  | Ok Unavailable => (shown ++ [Connecting], Ok Unavailable)
  | other => (shown, other)
  end.

End Fetcher.

(** *** The cache of [@st.cache_data(ttl=30)]

    The decorator keeps the value the function returned together with the
    elements it showed, and gives both back without running the function
    while the entry is younger than [ttl]; [st.cache_data.clear()] empties
    it.  Time is the clock reading handed to each call. *)
Record entry : Type := {
  stored_at : Z;
  stored : (float * float) * list message
}.

Definition cache : Type := option entry.

Definition fresh (now : Z) (e : entry) : bool := (now <? stored_at e + ttl)%Z.

Definition clear (c : cache) : cache := None.

Section Cached.

Variable float_of_str : string -> option float.

(** A call of the decorated [get_realtime_data] at time [now]; [net] is
    what the network answers if it is asked.  The last component counts the
    network calls issued. *)
Definition cached_get_realtime_data (c : cache) (now : Z) (net : http_result)
  : cache * ((float * float) * list message) * nat :=
  let run :=
    let v := get_realtime_data float_of_str net in
    (Some {| stored_at := now; stored := v |}, v, 1%nat) in
  match c with
  | Some e => if fresh now e then (c, stored e, 0%nat) else run
  | None => run
  end.

(** Lines 91-92 then line 97: the refresh button, then the fetch. *)
Definition refresh_and_fetch (c : cache) (clicked : bool) (now : Z)
  (net : http_result) : cache * ((float * float) * list message) * nat :=
  cached_get_realtime_data (if clicked then clear c else c) now net.

(** One run of the whole script: lines 91-92, then lines 97-198. *)
Definition rerun (c : cache) (clicked : bool) (now : Z) (net : http_result)
  (ctf_price_input : float) : cache * nat * (list message * result view) :=
  let '(c1, ((xau_price, exchange_rate), shown), calls) :=
    refresh_and_fetch c clicked now net in
  (c1, calls,
   match render xau_price exchange_rate ctf_price_input with
   | Ok Unavailable => (shown ++ [Connecting], Ok Unavailable)
   | other => (shown, other)
   end).

End Cached.

(** The ways the fetch stage fails: the request itself, a line that is not
    found, a field that is not there, a field that is no number. *)
Inductive fetch_failure (float_of_str : string -> option float)
  : http_result -> Prop :=
| request_failed :
    fetch_failure float_of_str RequestFailed
| commodity_line_missing text :
    re_search opening_xau closing text = None ->
    fetch_failure float_of_str (Response text)
| commodity_price_not_numeric text line field :
    re_search opening_xau closing text = Some line ->
    nth_error (split comma line) 0 = Some field ->
    float_of_str field = None ->
    fetch_failure float_of_str (Response text)
| currency_line_missing text :
    re_search opening_rate closing text = None ->
    fetch_failure float_of_str (Response text)
| currency_rate_absent text line :
    re_search opening_rate closing text = Some line ->
    nth_error (split comma line) 1 = None ->
    fetch_failure float_of_str (Response text)
| currency_rate_not_numeric text line field :
    re_search opening_rate closing text = Some line ->
    nth_error (split comma line) 1 = Some field ->
    float_of_str field = None ->
    fetch_failure float_of_str (Response text).

(** Both fields of a response are found and are numbers. *)
Definition parses (float_of_str : string -> option float) (net : http_result)
  (xau_price usd_cny_rate : float) : Prop :=
  exists text xau_line xau_field rate_line rate_field,
    net = Response text /\
    re_search opening_xau closing text = Some xau_line /\
    nth_error (split comma xau_line) 0 = Some xau_field /\
    float_of_str xau_field = Some xau_price /\
    re_search opening_rate closing text = Some rate_line /\
    nth_error (split comma rate_line) 1 = Some rate_field /\
    float_of_str rate_field = Some usd_cny_rate.

(** A fragment of [float(s)], enough to run the fetcher on sample
    responses: plain decimals [ddd] or [ddd.ddd], optionally signed, with
    at most fifteen digits in all, so that the digits and the power of ten
    are both exact in binary64 and their quotient is the correctly rounded
    value, as [float] gives it. *)
Definition digit_of (c : ascii) : option Z :=
  let n := Z.of_nat (nat_of_ascii c) in
  if ((48 <=? n) && (n <=? 57))%Z then Some (n - 48)%Z else None.

Fixpoint digits_of (acc : Z) (s : string) : option (Z * string) :=
  match s with
  | EmptyString => Some (acc, EmptyString)
  | String c s' =>
      match digit_of c with
      | Some d => digits_of (10 * acc + d)%Z s'
      | None => Some (acc, s)
      end
  end.

Definition unsigned_decimal (s : string) : option float :=
  match s with
  | EmptyString => None
  | String c _ =>
      match digit_of c, digits_of 0 s with
      | Some _, Some (whole, EmptyString) =>
          if (String.length s <=? 15)%nat
          then Some (of_uint63 (Uint63.of_Z whole)) else None
      | Some _, Some (whole, String dot frac) =>
          if (Ascii.eqb dot "."%char && (String.length s <=? 16)%nat)%bool then
            match frac, digits_of whole frac with
            | String _ _, Some (num, EmptyString) =>
                Some (of_uint63 (Uint63.of_Z num)
                      / of_uint63 (Uint63.of_Z (10 ^ Z.of_nat (String.length frac))))%float
            | _, _ => None
            end
          else None
      | _, _ => None
      end
  end.

Definition decimal_float (s : string) : option float :=
  match s with
  | String "-"%char s' => option_map PrimFloat.opp (unsigned_decimal s')
  | _ => unsigned_decimal s
  end.

(** A response of the shape the endpoint gives. *)
Definition sample_line (name fields : string) : string :=
  ("var hq_str_" ++ name ++ "=" ++ String dquote fields
   ++ String dquote (String ";"%char (String newline EmptyString)))%string.

Definition sample_text : string :=
  (sample_line "hf_XAU" "2034.50,2034.10,2034.50,2034.85,2040.11,2020.40"
   ++ sample_line "fx_susdcny" "23:29:50,7.1534,7.1540,7.1570,102,7.1500")%string.

(** The same with the currency line left out. *)
Definition sample_text_no_rate : string :=
  sample_line "hf_XAU" "2034.50,2034.10,2034.50,2034.85,2040.11,2020.40".

(** The exact value of a float, for bounds stated in decimals. *)
Definition Q_of_float (x : float) : option Q :=
  match Prim2SF x with
  | S754_zero _ => Some 0%Q
  | S754_finite s m e =>
      Some ((if s then -1 else 1) * inject_Z (Zpos m) * Qpower 2 e)%Q
  | _ => None
  end.

(** [lo <= x < hi], exactly. *)
Definition within (lo hi : Q) (x : float) : bool :=
  match Q_of_float x with
  | Some q => (Qle_bool lo q && negb (Qle_bool hi q))%bool
  | None => false
  end.

(** A response whose currency rate is zero. *)
Definition sample_text_zero_rate : string :=
  (sample_line "hf_XAU" "2034.50,2034.10,2034.50"
   ++ sample_line "fx_susdcny" "23:29:50,0,0")%string.

(** The characters of the endpoint's fields: digits, and the signs of
    decimals, times and field separation. *)
Definition field_char (c : ascii) : bool :=
  match digit_of c with
  | Some _ => true
  | None =>
      Ascii.eqb c "."%char || Ascii.eqb c "-"%char
      || Ascii.eqb c ":"%char || Ascii.eqb c comma
  end.

Fixpoint all_chars (p : ascii -> bool) (s : string) : bool :=
  match s with
  | EmptyString => true
  | String c s' => p c && all_chars p s'
  end.

Section Sessions.

Variable float_of_str : string -> option float.

(** A run of fetches with no refresh in between, each with its clock
    reading and what the network would answer: the cache left, the values
    returned, and the network calls issued. *)
Fixpoint fetch_all (c : cache) (requests : list (Z * http_result))
  : cache * list ((float * float) * list message) * nat :=
  match requests with
  | [] => (c, [], 0%nat)
  | (now, net) :: rest =>
      let '(c1, v, n) := cached_get_realtime_data float_of_str c now net in
      let '(c2, vs, ns) := fetch_all c1 rest in
      (c2, v :: vs, (n + ns)%nat)
  end.

(** The caches a session can be in: empty at the start, then whatever
    the runs leave. *)
Inductive reachable : cache -> Prop :=
| reachable_start : reachable None
| reachable_run c clicked now net :
    reachable c ->
    reachable (fst (fst (refresh_and_fetch float_of_str c clicked now net))).

End Sessions.

End App.

(** ** Binary64 against the rationals

    The operations of [float] are specified bit by bit ([SFmul], [SFdiv],
    [SFsub] on [spec_float]).  To reason about order, each operation is
    shown to round the exact rational result to nearest, ties to even, and
    that rounding is shown to be monotone. *)
Module Binary64.

Local Open Scope Q_scope.

(** Powers of two with an integer exponent. *)
Definition bpow (e : Z) : Q := 2 ^ e.

(** [y] lies at location [l] of the unit interval that starts at [m]. *)
Definition inbetween (m : Z) (l : location) (y : Q) : Prop :=
  match l with
  | loc_Exact => y == inject_Z m
  | loc_Inexact c =>
      inject_Z m < y /\ y < inject_Z m + 1 /\ (y ?= inject_Z m + (1 # 2)) = c
  end.

Ltac qcompare_goal :=
  match goal with
  | |- (_ ?= _) = Lt => apply (proj1 (Qlt_alt _ _))
  | |- (_ ?= _) = Eq => apply (proj1 (Qeq_alt _ _))
  | |- (_ ?= _) = Gt => apply (proj1 (Qgt_alt _ _))
  end.

(** What [binary_round_aux] does after the first shift and the rounding
    of the mantissa. *)
Definition finish (n t : Z) : spec_float :=
  let '(mrs, e) := shr_fexp prec emax n t loc_Exact in
  match shr_m mrs with
  | Z0 => S754_zero false
  | Zpos m =>
      if (e <=? emax - prec)%Z then S754_finite false m e
      else S754_infinity false
  | Zneg _ => S754_nan
  end.

(** [t] is the exponent at which binary64 keeps a positive real [x]. *)
Definition cexp (x : Q) (t : Z) : Prop :=
(t = (-1074)%Z /\ x < bpow (-1021)) \/
  ((-1074 < t)%Z /\ bpow (t + 52) <= x /\ x < bpow (t + 53)).

(** [f] is [x > 0] rounded to nearest, ties to even. *)
Definition Rpos (x : Q) (f : spec_float) : Prop :=
  exists t n l,
    cexp x t /\ inbetween n l (x * bpow (- t)) /\
    f = finish (round_nearest_even n l) t.

(** The position of a float in the order of binary64: zero for both
    zeros, the mantissa stacked on the exponent for finite numbers, the
    bound [top] for the infinities; negatives are mirrored. *)
Definition top : Z := 2047 * 2 ^ 52.

Definition ord (f : spec_float) : Z :=
  match f with
  | S754_zero _ => 0
  | S754_infinity s => cond_Zopp s top
  | S754_nan => 0
  | S754_finite s m e => cond_Zopp s ((e + 1074) * 2 ^ 52 + Zpos m)
  end.

Definition is_nan (f : spec_float) : bool :=
  match f with
  | S754_nan => true
  | _ => false
  end.

(** The value of a finite float; zero for the others. *)
Definition B2Q (f : spec_float) : Q :=
  match f with
  | S754_finite s m e => inject_Z (cond_Zopp s (Zpos m)) * bpow e
  | _ => 0
  end.

(** [f] is the real [x] rounded to nearest, ties to even. *)
Definition Rnd (x : Q) (f : spec_float) : Prop :=
  match x ?= 0 with
  | Eq => exists s, f = S754_zero s
  | Gt => Rpos x f
  | Lt => exists f', Rpos (- x) f' /\ f = SFopp f'
  end.

Inductive ext : Type :=
| NegInf
| Real (q : Q)
| PosInf.

Definition ext_le (a b : ext) : Prop :=
  match a, b with
  | NegInf, _ => True
  | _, PosInf => True
  | Real x, Real y => x <= y
  | _, _ => False
  end.

Definition ext_map (g : Q -> Q) (a : ext) : ext :=
  match a with
  | Real q => Real (g q)
  | other => other
  end.

Definition B2E (f : spec_float) : ext :=
  match f with
  | S754_infinity true => NegInf
  | S754_infinity false => PosInf
  | _ => Real (B2Q f)
  end.

Definition RndE (a : ext) (f : spec_float) : Prop :=
  match a with
  | NegInf => f = S754_infinity true
  | PosInf => f = S754_infinity false
  | Real q => Rnd q f
  end.

Lemma bpow_pos e : 0 < bpow e.
Proof. apply Qpower_0_lt. reflexivity. Qed.

Lemma bpow_plus a b : bpow (a + b) == bpow a * bpow b.
Proof. apply Qpower_plus. discriminate. Qed.

Lemma bpow_succ e : bpow (e + 1) == 2 * bpow e.
Proof. rewrite bpow_plus. change (bpow 1) with 2. ring. Qed.

Lemma bpow_pred e : bpow (e - 1) == bpow e * (1 # 2).
Proof.
  replace e with ((e - 1) + 1)%Z at 2 by ring. rewrite bpow_succ. field.
Qed.

Lemma bpow_opp e : bpow (- e) == / bpow e.
Proof. apply Qpower_opp. Qed.

Lemma bpow_le a b : (a <= b)%Z -> bpow a <= bpow b.
Proof. intros H. apply Qpower_le_compat_l; [exact H|discriminate]. Qed.

Lemma bpow_lt a b : (a < b)%Z -> bpow a < bpow b.
Proof. intros H. apply Qpower_lt_compat_l; [exact H|reflexivity]. Qed.

Lemma bpow_lt_inv a b : bpow a < bpow b -> (a < b)%Z.
Proof. intros H. apply (Qpower_lt_compat_l_inv 2); [exact H|reflexivity]. Qed.

Lemma bpow_Z n : (0 <= n)%Z -> bpow n == inject_Z (2 ^ n).
Proof. intros H. now rewrite Zpower_Qpower. Qed.

Lemma bpow_cancel e : bpow e * bpow (- e) == 1.
Proof. rewrite <- bpow_plus. now rewrite Z.add_opp_diag_r. Qed.

(** Integers against powers of two. *)
Lemma Z_lt_bpow n k : (0 <= k)%Z -> (n < 2 ^ k)%Z <-> inject_Z n < bpow k.
Proof. intros H. rewrite bpow_Z by exact H. now rewrite Zlt_Qlt. Qed.

Lemma Z_le_bpow n k : (0 <= k)%Z -> (2 ^ k <= n)%Z <-> bpow k <= inject_Z n.
Proof. intros H. rewrite bpow_Z by exact H. now rewrite Zle_Qle. Qed.

(** ** Number of binary digits *)

Lemma digits2_pos_size p : digits2_pos p = Pos.size p.
Proof. induction p; simpl; now rewrite ?IHp. Qed.

Lemma digits2_pos_bounds p :
  (2 ^ (Zpos (digits2_pos p) - 1) <= Zpos p < 2 ^ Zpos (digits2_pos p))%Z.
Proof.
  rewrite digits2_pos_size. split.
  - pose proof (Pos.size_le p) as H.
    assert (H' : (2 ^ Zpos (Pos.size p) <= 2 * Zpos p)%Z).
    { change (2 * Zpos p)%Z with (Zpos p~0). rewrite <- Pos2Z.inj_pow. exact H. }
    replace (Zpos (Pos.size p)) with (Z.succ (Zpos (Pos.size p) - 1)) in H' by lia.
    rewrite Z.pow_succ_r in H' by lia. lia.
  - pose proof (Pos.size_gt p) as H.
    rewrite <- Pos2Z.inj_pow. exact H.
Qed.

Lemma Zdigits2_bounds m :
  (0 < m)%Z -> (2 ^ (Zdigits2 m - 1) <= m < 2 ^ Zdigits2 m)%Z.
Proof. destruct m as [|p|p]; try lia. intros _. apply digits2_pos_bounds. Qed.

Lemma Zdigits2_pos m : (0 < m)%Z -> (0 < Zdigits2 m)%Z.
Proof. destruct m; simpl; lia. Qed.

(** The digit count is the one [k] with [2^(k-1) <= m < 2^k]. *)
Lemma Zdigits2_unique m k :
  (0 < k)%Z -> (2 ^ (k - 1) <= m < 2 ^ k)%Z -> Zdigits2 m = k.
Proof.
  intros Hk [Hl Hu].
  assert (Hm : (0 < m)%Z) by (pose proof (Z.pow_pos_nonneg 2 (k - 1)); lia).
  destruct (Zdigits2_bounds m Hm) as [Hl' Hu'].
  pose proof (Zdigits2_pos m Hm) as Hd.
  destruct (Z.lt_trichotomy (Zdigits2 m) k) as [H|[H|H]]; [|exact H|].
  - assert (2 ^ Zdigits2 m <= 2 ^ (k - 1))%Z by (apply Z.pow_le_mono_r; lia). lia.
  - assert (2 ^ k <= 2 ^ (Zdigits2 m - 1))%Z by (apply Z.pow_le_mono_r; lia). lia.
Qed.

Lemma Zdigits2_ge m k :
  (0 < k)%Z -> (2 ^ (k - 1) <= m)%Z -> (k <= Zdigits2 m)%Z.
Proof.
  intros Hk Hl.
  assert (Hm : (0 < m)%Z) by (pose proof (Z.pow_pos_nonneg 2 (k - 1)); lia).
  destruct (Zdigits2_bounds m Hm) as [_ Hu].
  destruct (Z.le_gt_cases k (Zdigits2 m)) as [H|H]; [exact H|].
  assert (2 ^ Zdigits2 m <= 2 ^ (k - 1))%Z by (apply Z.pow_le_mono_r; lia). lia.
Qed.

Lemma Zdigits2_le m k :
  (0 <= k)%Z -> (0 <= m < 2 ^ k)%Z -> (Zdigits2 m <= k)%Z.
Proof.
  intros Hk [Hm Hu].
  destruct (Z.eq_dec m 0) as [->|Hn]; [exact Hk|].
  destruct (Zdigits2_bounds m ltac:(lia)) as [Hl _].
  destruct (Z.le_gt_cases (Zdigits2 m) k) as [H|H]; [exact H|].
  assert (2 ^ k <= 2 ^ (Zdigits2 m - 1))%Z by (apply Z.pow_le_mono_r; lia). lia.
Qed.

Lemma inject_Z_xO p : inject_Z (Zpos p~0) == 2 * inject_Z (Zpos p).
Proof. rewrite Pos2Z.inj_xO, inject_Z_mult. reflexivity. Qed.

Lemma inject_Z_xI p : inject_Z (Zpos p~1) == 2 * inject_Z (Zpos p) + 1.
Proof. rewrite Pos2Z.inj_xI, inject_Z_plus, inject_Z_mult. reflexivity. Qed.

Lemma inbetween_inexact m c y :
  inbetween m (loc_Inexact c) y -> inject_Z m < y < inject_Z m + 1.
Proof. intros (H1 & H2 & _). now split. Qed.

Lemma shr_1_inbetween mrs y :
  (0 <= shr_m mrs)%Z ->
  inbetween (shr_m mrs) (loc_of_shr_record mrs) y ->
  (0 <= shr_m (shr_1 mrs))%Z /\
  inbetween (shr_m (shr_1 mrs)) (loc_of_shr_record (shr_1 mrs)) (y * (1 # 2)).
Proof.
  destruct mrs as [m r s]. simpl shr_m. intros Hm H.
  assert (Hy : (r || s = false /\ y == inject_Z m) \/
               (r || s = true /\ inject_Z m < y < inject_Z m + 1)).
  { destruct r, s; simpl in H |- *;
      try (right; split; [reflexivity|]; destruct H as (H1 & H2 & _); now split).
    left. now split. }
  clear H.
  destruct m as [|[p|p|]|p]; try lia; unfold shr_1;
    destruct Hy as [[-> Hy]|[-> Hy]]; simpl; (split; [lia|]);
    rewrite ?inject_Z_xO, ?inject_Z_xI in Hy;
    change (inject_Z 0) with 0 in *; change (inject_Z 1) with 1 in *;
    try (repeat split; try qcompare_goal; lra); lra.
Qed.

Lemma iter_pos_nat {A : Type} (f : A -> A) (p : positive) (x : A) :
  SpecFloat.iter_pos f p x = Nat.iter (Pos.to_nat p) f x.
Proof.
  revert x. induction p as [p IH|p IH|]; intros x.
  - rewrite Pos2Nat.inj_xI. cbn [SpecFloat.iter_pos]. rewrite !IH.
    rewrite <- Nat.iter_succ_r, <- Nat.iter_add. f_equal. lia.
  - rewrite Pos2Nat.inj_xO. cbn [SpecFloat.iter_pos]. rewrite !IH.
    rewrite <- Nat.iter_add. f_equal. lia.
  - reflexivity.
Qed.

Lemma iter_shr_1_inbetween n mrs y :
  (0 <= shr_m mrs)%Z ->
  inbetween (shr_m mrs) (loc_of_shr_record mrs) y ->
  (0 <= shr_m (Nat.iter n shr_1 mrs))%Z /\
  inbetween (shr_m (Nat.iter n shr_1 mrs))
    (loc_of_shr_record (Nat.iter n shr_1 mrs)) (y * bpow (- Z.of_nat n)).
Proof.
  intros Hm H. induction n as [|n [IH1 IH2]].
  - simpl. split; [exact Hm|]. change (bpow (- 0)) with 1.
    destruct (loc_of_shr_record mrs); simpl in *.
    + rewrite Qmult_1_r. exact H.
    + rewrite !Qmult_1_r. exact H.
  - rewrite Nat.iter_succ.
    destruct (shr_1_inbetween _ _ IH1 IH2) as [H1 H2]. split; [exact H1|].
    assert (E : y * bpow (- Z.of_nat (S n)) == y * bpow (- Z.of_nat n) * (1 # 2)).
    { replace (- Z.of_nat (S n))%Z with (- Z.of_nat n - 1)%Z by lia.
      rewrite bpow_pred. ring. }
    destruct (loc_of_shr_record (shr_1 (Nat.iter n shr_1 mrs))); simpl in *.
    + rewrite E. exact H2.
    + rewrite !E. exact H2.
Qed.

Lemma fexp_eq e : fexp prec emax e = Z.max (e - 53) (-1074).
Proof. reflexivity. Qed.

Lemma shr_record_of_loc_m m l : shr_m (shr_record_of_loc m l) = m.
Proof. now destruct l as [|[]]. Qed.

Lemma loc_of_shr_record_of_loc m l :
  loc_of_shr_record (shr_record_of_loc m l) = l.
Proof. now destruct l as [|[]]. Qed.

Lemma shr_fexp_spec m e l x :
  (0 <= m)%Z ->
  inbetween m l (x * bpow (- e)) ->
  (e <= fexp prec emax (Zdigits2 m + e))%Z ->
  exists mrs,
    shr_fexp prec emax m e l = (mrs, fexp prec emax (Zdigits2 m + e)) /\
    (0 <= shr_m mrs)%Z /\
    inbetween (shr_m mrs) (loc_of_shr_record mrs)
      (x * bpow (- fexp prec emax (Zdigits2 m + e))).
Proof.
  intros Hm H He. unfold shr_fexp, shr.
  set (t := fexp prec emax (Zdigits2 m + e)) in *.
  destruct (t - e)%Z as [|p|p] eqn:Ek; [| |lia].
  - assert (t = e) as -> by lia.
    exists (shr_record_of_loc m l). 
    rewrite shr_record_of_loc_m, loc_of_shr_record_of_loc. auto.
  - rewrite iter_pos_nat.
    destruct (iter_shr_1_inbetween (Pos.to_nat p) (shr_record_of_loc m l)
                (x * bpow (- e))) as [H1 H2].
    + now rewrite shr_record_of_loc_m.
    + now rewrite shr_record_of_loc_m, loc_of_shr_record_of_loc.
    + eexists. split; [|split; [exact H1|]].
      * f_equal. lia.
      * assert (E : x * bpow (- e) * bpow (- Z.of_nat (Pos.to_nat p))
                    == x * bpow (- t)).
        { rewrite <- Qmult_assoc, <- bpow_plus.
          replace (- e + - Z.of_nat (Pos.to_nat p))%Z with (- t)%Z by lia.
          reflexivity. }
        destruct (loc_of_shr_record _); simpl in *.
        -- rewrite <- E. exact H2.
        -- rewrite <- !E. exact H2.
Qed.

Lemma binary_round_aux_finish m e l :
  binary_round_aux prec emax false m e l =
  let '(mrs, t) := shr_fexp prec emax m e l in
  finish (round_nearest_even (shr_m mrs) (loc_of_shr_record mrs)) t.
Proof. unfold binary_round_aux, finish. now destruct (shr_fexp prec emax m e l). Qed.

(** Scaling by a power of two. *)
Lemma scale_lt x e k : x * bpow (- e) < bpow k -> x < bpow (k + e).
Proof.
  intros H. rewrite bpow_plus.
  assert (E : x == x * bpow (- e) * bpow e).
  { rewrite <- Qmult_assoc, (Qmult_comm (bpow (- e))), bpow_cancel. ring. }
  rewrite E. apply Qmult_lt_r; [apply bpow_pos|exact H].
Qed.

Lemma scale_le x e k : bpow k <= x * bpow (- e) -> bpow (k + e) <= x.
Proof.
  intros H. rewrite bpow_plus.
  assert (E : x == x * bpow (- e) * bpow e).
  { rewrite <- Qmult_assoc, (Qmult_comm (bpow (- e))), bpow_cancel. ring. }
  rewrite E. apply Qmult_le_r; [apply bpow_pos|exact H].
Qed.

Lemma unscale_lt x e k : x < bpow (k + e) -> x * bpow (- e) < bpow k.
Proof.
  intros H. rewrite bpow_plus in H.
  assert (E : bpow k == bpow k * bpow e * bpow (- e)).
  { rewrite <- Qmult_assoc, bpow_cancel. ring. }
  rewrite E. apply Qmult_lt_r; [apply bpow_pos|exact H].
Qed.

Lemma unscale_le x e k : bpow (k + e) <= x -> bpow k <= x * bpow (- e).
Proof.
  intros H. rewrite bpow_plus in H.
  assert (E : bpow k == bpow k * bpow e * bpow (- e)).
  { rewrite <- Qmult_assoc, bpow_cancel. ring. }
  rewrite E. apply Qmult_le_r; [apply bpow_pos|exact H].
Qed.

Lemma inbetween_bounds m l y :
  inbetween m l y -> inject_Z m <= y /\ y < inject_Z m + 1.
Proof.
  destruct l as [|c]; simpl.
  - intros ->. split; lra.
  - intros (H1 & H2 & _). split; lra.
Qed.

(** The exponent [binary_round_aux] shifts to is the one of [cexp]. *)
Lemma cexp_of_digits m e l x :
  (0 <= m)%Z ->
  inbetween m l (x * bpow (- e)) ->
  (e <= fexp prec emax (Zdigits2 m + e))%Z ->
  cexp x (fexp prec emax (Zdigits2 m + e)).
Proof.
  intros Hm H He. apply inbetween_bounds in H. destruct H as [Hl Hu].
  rewrite fexp_eq in *. unfold cexp.
  destruct (Z.eq_dec m 0) as [->|Hn].
  - simpl Zdigits2 in *. left. split; [lia|].
    change (inject_Z 0 + 1) with (bpow 0) in Hu. apply scale_lt in Hu.
    apply Qlt_le_trans with (1 := Hu). apply bpow_le. lia.
  - destruct (Zdigits2_bounds m ltac:(lia)) as [Dl Du].
    pose proof (Zdigits2_pos m ltac:(lia)) as Dp.
    set (d := Zdigits2 m) in *.
    assert (Xl : bpow (d - 1 + e) <= x).
    { apply scale_le. apply Qle_trans with (2 := Hl).
      apply Z_le_bpow; [lia|exact Dl]. }
    assert (Xu : x < bpow (d + e)).
    { apply scale_lt. apply Qlt_le_trans with (1 := Hu).
      rewrite bpow_Z by lia.
      change 1 with (inject_Z 1). rewrite <- inject_Z_plus, <- Zle_Qle. lia. }
    destruct (Z.le_gt_cases (d + e - 53) (-1074)) as [Hc|Hc].
    + left. split; [lia|].
      apply Qlt_le_trans with (1 := Xu). apply bpow_le. lia.
    + right. replace (Z.max (d + e - 53) (-1074)) with (d + e - 53)%Z by lia.
      split; [lia|]. split.
      * replace (d + e - 53 + 52)%Z with (d - 1 + e)%Z by lia. exact Xl.
      * replace (d + e - 53 + 53)%Z with (d + e)%Z by lia. exact Xu.
Qed.

(** The rounding of [binary_round_aux] is [Rpos]. *)
Lemma binary_round_aux_Rpos m e l x :
  (0 <= m)%Z ->
  inbetween m l (x * bpow (- e)) ->
  (e <= fexp prec emax (Zdigits2 m + e))%Z ->
  Rpos x (binary_round_aux prec emax false m e l).
Proof.
  intros Hm H He.
  destruct (shr_fexp_spec m e l x Hm H He) as (mrs & E & _ & Hin).
  rewrite binary_round_aux_finish, E.
  exists (fexp prec emax (Zdigits2 m + e)), (shr_m mrs), (loc_of_shr_record mrs).
  split; [|split; [exact Hin|reflexivity]].
  now apply cexp_of_digits with (l := l).
Qed.

Lemma finish_zero t : (-1074 <= t)%Z -> finish 0 t = S754_zero false.
Proof.
  intros Ht. unfold finish, shr_fexp, shr. rewrite fexp_eq. simpl Zdigits2.
  destruct (Z.max (0 + t - 53) (-1074) - t)%Z eqn:E; try reflexivity. lia.
Qed.

Lemma finish_small n t :
  (0 < n < 2 ^ 53)%Z -> (-1074 <= t)%Z ->
  finish n t = if (t <=? 971)%Z then S754_finite false (Z.to_pos n) t
               else S754_infinity false.
Proof.
  intros Hn Ht. unfold finish, shr_fexp, shr. rewrite fexp_eq.
  pose proof (Zdigits2_le n 53 ltac:(lia) ltac:(lia)) as Hd.
  destruct (Z.max (Zdigits2 n + t - 53) (-1074) - t)%Z eqn:E; try lia;
    cbn [shr_record_of_loc shr_m]; destruct n; try lia; reflexivity.
Qed.

Lemma finish_carry t :
  (-1074 <= t)%Z ->
  finish (2 ^ 53) t = if (t + 1 <=? 971)%Z
                      then S754_finite false (2 ^ 52)%positive (t + 1)
                      else S754_infinity false.
Proof.
  intros Ht. unfold finish, shr_fexp, shr. rewrite fexp_eq.
  change (Zdigits2 (2 ^ 53)) with 54%Z.
  replace (Z.max (54 + t - 53) (-1074) - t)%Z with 1%Z by lia.
  reflexivity.
Qed.

(** The position of a rounded mantissa [n] at exponent [t]. *)
Lemma ord_finish n t :
  (0 <= n <= 2 ^ 53)%Z -> (-1074 <= t)%Z -> ((-1074 < t)%Z -> (2 ^ 52 <= n)%Z) ->
  ord (finish n t) = Z.min ((t + 1074) * 2 ^ 52 + n) top /\
  (finish n t = S754_zero false \/ finish n t = S754_infinity false \/
   exists m e, finish n t = S754_finite false m e).
Proof.
  intros Hn Ht Hw. unfold top.
  destruct (Z.eq_dec n 0) as [->|N0].
  { rewrite finish_zero by exact Ht. split; [|now left].
    assert (t = -1074)%Z as -> by lia. reflexivity. }
  destruct (Z.eq_dec n (2 ^ 53)) as [->|N1].
  { rewrite finish_carry by exact Ht.
    destruct (Z.leb_spec (t + 1) 971); cbn [ord cond_Zopp]; unfold top; (split; [|eauto]).
    - change (Z.pos (2 ^ 52)) with (2 ^ 52)%Z. lia.
    - lia. }
  rewrite finish_small by lia.
  destruct (Z.leb_spec t 971); cbn [ord cond_Zopp]; unfold top; (split; [|eauto]).
  - rewrite Z2Pos.id by lia. lia.
  - lia.
Qed.

Lemma round_nearest_even_range n l :
  (n <= round_nearest_even n l <= n + 1)%Z.
Proof. destruct l as [|[]]; simpl; try lia. destruct (Z.even n); lia. Qed.

Lemma Zle_of_Qlt_succ a b : inject_Z a < inject_Z b + 1 -> (a <= b)%Z.
Proof.
  change 1 with (inject_Z 1). rewrite <- inject_Z_plus, <- Zlt_Qlt. lia.
Qed.

Lemma round_nearest_even_monotone n1 l1 y1 n2 l2 y2 :
  inbetween n1 l1 y1 -> inbetween n2 l2 y2 -> y1 <= y2 ->
  (round_nearest_even n1 l1 <= round_nearest_even n2 l2)%Z.
Proof.
  intros H1 H2 Hy.
  pose proof (inbetween_bounds _ _ _ H1) as [L1 U1].
  pose proof (inbetween_bounds _ _ _ H2) as [L2 U2].
  assert (Hn : (n1 <= n2)%Z) by (apply Zle_of_Qlt_succ; lra).
  pose proof (round_nearest_even_range n1 l1).
  pose proof (round_nearest_even_range n2 l2).
  destruct (Z.eq_dec n1 n2) as [<-|Hne]; [|lia].
  destruct l1 as [|c1]; [simpl; lia|].
  destruct l2 as [|c2]; [simpl in H1, H2; lra|].
  destruct H1 as (_ & _ & C1), H2 as (_ & _ & C2).
  destruct c1, c2; simpl; try lia; try (destruct (Z.even n1); lia);
    first [apply Qeq_alt in C1|apply Qlt_alt in C1|apply Qgt_alt in C1];
    first [apply Qeq_alt in C2|apply Qlt_alt in C2|apply Qgt_alt in C2]; lra.
Qed.

(** What [Rpos] says about the position of the result. *)
Lemma Rpos_ord x f :
  0 < x -> Rpos x f ->
  exists t n l,
    cexp x t /\ inbetween n l (x * bpow (- t)) /\
    ord f = Z.min ((t + 1074) * 2 ^ 52 + round_nearest_even n l) top /\
    (0 <= round_nearest_even n l <= 2 ^ 53)%Z /\
    ((-1074 < t)%Z -> (2 ^ 52 <= round_nearest_even n l)%Z) /\
    (f = S754_zero false \/ f = S754_infinity false \/
     exists m e, f = S754_finite false m e).
Proof.
  intros Hx (t & n & l & Hc & Hin & ->).
  exists t, n, l. split; [exact Hc|]. split; [exact Hin|].
  pose proof (inbetween_bounds _ _ _ Hin) as [L U].
  pose proof (round_nearest_even_range n l) as R.
  assert (Y0 : 0 < x * bpow (- t)).
  { apply Qmult_lt_0_compat; [exact Hx|apply bpow_pos]. }
  assert (N0 : (0 <= n)%Z) by (apply Zle_of_Qlt_succ; change (inject_Z 0) with 0; lra).
  assert (Yu : x * bpow (- t) < bpow 53).
  { apply unscale_lt. rewrite Z.add_comm.
    destruct Hc as [[-> H]|(_ & _ & H)]; exact H. }
  assert (Nu : (n < 2 ^ 53)%Z).
  { apply Z_lt_bpow; [lia|]. lra. }
  assert (Ht : (-1074 <= t)%Z) by (destruct Hc as [[-> _]|[H _]]; lia).
  assert (Hw : (-1074 < t)%Z -> (2 ^ 52 <= round_nearest_even n l)%Z).
  { intros Ht'. destruct Hc as [[-> _]|(_ & Hl & _)]; [lia|].
    rewrite Z.add_comm in Hl. apply unscale_le in Hl.
    assert (2 ^ 52 <= n)%Z; [|lia].
    apply Zle_of_Qlt_succ. rewrite bpow_Z in Hl by lia. lra. }
  destruct (ord_finish (round_nearest_even n l) t) as [E S]; try lia.
  repeat split; try lia; assumption.
Qed.

Lemma Rpos_monotone x y f g :
  0 < x -> x <= y -> Rpos x f -> Rpos y g -> (ord f <= ord g)%Z.
Proof.
  intros Hx Hxy Hf Hg.
  destruct (Rpos_ord x f Hx Hf) as (tx & nx & lx & Cx & Ix & -> & Bx & Wx & _).
  destruct (Rpos_ord y g ltac:(lra) Hg) as (ty & ny & ly & Cy & Iy & -> & By & Wy & _).
  assert (Tx : (-1074 <= tx)%Z) by (destruct Cx as [[-> _]|[H _]]; lia).
  assert (Ty : (-1074 <= ty)%Z) by (destruct Cy as [[-> _]|[H _]]; lia).
  destruct (Z.lt_trichotomy tx ty) as [H|[H|H]].
  - specialize (Wy ltac:(lia)). lia.
  - subst ty.
    assert (round_nearest_even nx lx <= round_nearest_even ny ly)%Z; [|lia].
    apply round_nearest_even_monotone with (1 := Ix) (2 := Iy).
    apply Qmult_le_compat_r; [exact Hxy|]. apply Qlt_le_weak, bpow_pos.
  - exfalso.
    assert (Xl : bpow (tx + 52) <= x).
    { destruct Cx as [[-> _]|(_ & Hl & _)]; [lia|exact Hl]. }
    assert (Yu : y < bpow (ty + 53)).
    { destruct Cy as [[-> Hu]|(_ & _ & Hu)]; exact Hu. }
    assert (bpow (ty + 53) <= bpow (tx + 52)) by (apply bpow_le; lia).
    lra.
Qed.

Lemma Rpos_nonneg x f :
  0 < x -> Rpos x f ->
  (0 <= ord f)%Z /\
  (f = S754_zero false \/ f = S754_infinity false \/
   exists m e, f = S754_finite false m e).
Proof.
  intros Hx Hf.
  destruct (Rpos_ord x f Hx Hf) as (t & n & l & C & _ & E & B & _ & S).
  split; [|exact S].
  assert (-1074 <= t)%Z by (destruct C as [[-> _]|[H _]]; lia).
  rewrite E. unfold top. lia.
Qed.

Lemma ord_opp f : ord (SFopp f) = (- ord f)%Z.
Proof.
  destruct f as [s|s| |s m e]; try reflexivity; destruct s;
    cbn [SFopp ord negb cond_Zopp]; lia.
Qed.

Lemma Qcompare_opp_0 x : (- x ?= 0) = CompOpp (x ?= 0).
Proof.
  destruct (Qcompare_spec x 0) as [H|H|H]; cbn [CompOpp];
    [apply (proj1 (Qeq_alt _ _))|apply (proj1 (Qgt_alt _ _))
     |apply (proj1 (Qlt_alt _ _))]; lra.
Qed.

(** Rounding is monotone. *)
Lemma Rnd_monotone x y f g :
  x <= y -> Rnd x f -> Rnd y g -> (ord f <= ord g)%Z.
Proof.
  unfold Rnd. intros Hxy Hf Hg.
  destruct (Qcompare_spec x 0) as [X|X|X], (Qcompare_spec y 0) as [Y|Y|Y];
    try (exfalso; lra).
  - destruct Hf as [s ->], Hg as [s' ->]. simpl. lia.
  - destruct Hf as [s ->]. destruct (Rpos_nonneg y g Y Hg) as [H _]. simpl. lia.
  - destruct Hf as (f' & Hf & ->), Hg as [s ->]. rewrite ord_opp.
    destruct (Rpos_nonneg (- x) f' ltac:(lra) Hf) as [H _]. simpl. lia.
  - destruct Hf as (f' & Hf & ->), Hg as (g' & Hg & ->). rewrite !ord_opp.
    pose proof (Rpos_monotone (- y) (- x) g' f' ltac:(lra) ltac:(lra) Hg Hf). lia.
  - destruct Hf as (f' & Hf & ->). rewrite ord_opp.
    destruct (Rpos_nonneg (- x) f' ltac:(lra) Hf) as [H _].
    destruct (Rpos_nonneg y g Y Hg) as [H' _]. lia.
  - exact (Rpos_monotone x y f g X Hxy Hf Hg).
Qed.

(** ** Valid floats *)

Lemma valid_finite s m e :
  valid_binary (S754_finite s m e) = true ->
  (-1074 <= e <= 971)%Z /\ (0 < Zpos m < 2 ^ 53)%Z /\
  ((-1074 < e)%Z -> (2 ^ 52 <= Zpos m)%Z) /\
  fexp prec emax (Zdigits2 (Zpos m) + e) = e.
Proof.
  unfold SpecFloat.valid_binary, bounded, canonical_mantissa.
  intros H. apply andb_prop in H. destruct H as [H1 H2].
  apply Z.eqb_eq in H1. apply Z.leb_le in H2.
  change (emax - prec)%Z with 971%Z in H2.
  pose proof (digits2_pos_bounds m) as [Dl Du].
  pose proof H1 as H1'. rewrite fexp_eq in H1'.
  set (d := Zpos (digits2_pos m)) in *.
  assert (Hd : (0 < d <= 53)%Z) by lia.
  repeat split; try lia.
  - apply Z.lt_le_trans with (1 := Du). apply Z.pow_le_mono_r; lia.
  - intros He. assert (d = 53)%Z as E by lia. rewrite E in Dl. exact Dl.
  - exact H1.
Qed.

Lemma compare_cont_Eq m1 m2 :
  Pos.compare_cont Eq m1 m2 = (Zpos m1 ?= Zpos m2)%Z.
Proof. reflexivity. Qed.

Lemma Zcompare_opp a b : CompOpp (a ?= b)%Z = (- a ?= - b)%Z.
Proof. rewrite <- Z.compare_opp. apply eq_sym, Z.compare_antisym. Qed.

(** On valid floats other than NaN, the comparison of floats is the
    comparison of positions. *)
Lemma SFcompare_ord f g :
  valid_binary f = true -> valid_binary g = true ->
  is_nan f = false -> is_nan g = false ->
  SFcompare f g = Some (ord f ?= ord g)%Z.
Proof.
  intros Vf Vg Nf Ng.
  destruct f as [sf|sf| |sf mf ef]; try discriminate;
    destruct g as [sg|sg| |sg mg eg]; try discriminate;
    try (destruct (valid_finite _ _ _ Vf) as (Ef & Mf & Wf & _));
    try (destruct (valid_finite _ _ _ Vg) as (Eg & Mg & Wg & _));
    cbn [SFcompare ord]; unfold top;
    try (destruct sf); try (destruct sg); cbn [cond_Zopp];
    try reflexivity;
    try (f_equal; symmetry;
         first [apply Z.compare_lt_iff; lia | apply Z.compare_gt_iff; lia]).
  - rewrite compare_cont_Eq, Zcompare_opp. f_equal.
    destruct (Z.compare_spec ef eg) as [->|H|H].
    + destruct (Z.compare_spec (- Zpos mf) (- Zpos mg)); symmetry;
        [apply Z.compare_eq_iff|apply Z.compare_lt_iff|apply Z.compare_gt_iff]; lia.
    + symmetry. apply Z.compare_gt_iff. lia.
    + symmetry. apply Z.compare_lt_iff. lia.
  - rewrite compare_cont_Eq. f_equal.
    destruct (Z.compare_spec ef eg) as [->|H|H].
    + destruct (Z.compare_spec (Zpos mf) (Zpos mg)); symmetry;
        [apply Z.compare_eq_iff|apply Z.compare_lt_iff|apply Z.compare_gt_iff]; lia.
    + symmetry. apply Z.compare_lt_iff. lia.
    + symmetry. apply Z.compare_gt_iff. lia.
Qed.

Lemma SFleb_ord f g :
  valid_binary f = true -> valid_binary g = true ->
  is_nan f = false -> is_nan g = false ->
  SFleb f g = (ord f <=? ord g)%Z.
Proof.
  intros Vf Vg Nf Ng. unfold SFleb. rewrite (SFcompare_ord f g Vf Vg Nf Ng).
  unfold Z.leb. now destruct (ord f ?= ord g)%Z.
Qed.

Lemma SFltb_ord f g :
  valid_binary f = true -> valid_binary g = true ->
  is_nan f = false -> is_nan g = false ->
  SFltb f g = (ord f <? ord g)%Z.
Proof.
  intros Vf Vg Nf Ng. unfold SFltb. rewrite (SFcompare_ord f g Vf Vg Nf Ng).
  unfold Z.ltb. now destruct (ord f ?= ord g)%Z.
Qed.

Lemma SFleb_not_nan f g : SFleb f g = true -> is_nan f = false /\ is_nan g = false.
Proof. destruct f as [| | |? ? ?], g as [| | |? ? ?]; simpl; auto; discriminate. Qed.

Lemma SFltb_not_nan f g : SFltb f g = true -> is_nan f = false /\ is_nan g = false.
Proof. destruct f as [| | |? ? ?], g as [| | |? ? ?]; simpl; auto; discriminate. Qed.

(** A valid finite float is the rounding of its own value. *)
Lemma Rpos_exact m e :
  valid_binary (S754_finite false m e) = true ->
  Rpos (inject_Z (Zpos m) * bpow e) (S754_finite false m e).
Proof.
  intros V. destruct (valid_finite _ _ _ V) as (He & Hm & _ & Hc).
  assert (H : Rpos (inject_Z (Zpos m) * bpow e)
                (binary_round_aux prec emax false (Zpos m) e loc_Exact)).
  { apply binary_round_aux_Rpos; [lia| |lia].
    simpl. rewrite <- Qmult_assoc, bpow_cancel. ring. }
  rewrite binary_round_aux_finish in H.
  unfold shr_fexp, shr in H. rewrite Hc, Z.sub_diag in H.
  cbn [shr_record_of_loc shr_m loc_of_shr_record round_nearest_even] in H.
  rewrite finish_small in H by lia.
  replace (e <=? 971)%Z with true in H by (symmetry; apply Z.leb_le; lia).
  exact H.
Qed.

Lemma B2Q_pos m e : 0 < inject_Z (Zpos m) * bpow e.
Proof. apply Qmult_lt_0_compat; [reflexivity|apply bpow_pos]. Qed.

Lemma Rnd_exact f :
  valid_binary f = true ->
  (exists s, f = S754_zero s) \/ (exists s m e, f = S754_finite s m e) ->
  Rnd (B2Q f) f.
Proof.
  intros V [[s ->]|(s & m & e & ->)]; unfold Rnd.
  - simpl. now exists s.
  - pose proof (B2Q_pos m e) as P. destruct s; cbn [B2Q cond_Zopp].
    + replace (_ ?= 0) with Lt.
      2:{ symmetry. apply (proj1 (Qlt_alt _ _)).
          rewrite inject_Z_opp. lra. }
      exists (S754_finite false m e). split; [|reflexivity].
      assert (E : - (inject_Z (- Zpos m) * bpow e) == inject_Z (Zpos m) * bpow e).
      { rewrite inject_Z_opp. ring. }
      destruct (Rpos_exact m e V) as (t & n & l & C & I & F).
      exists t, n, l. unfold cexp in *. repeat split; try exact F.
      * now rewrite E.
      * destruct l; simpl in *; now rewrite ?E.
    + replace (_ ?= 0) with Gt.
      2:{ symmetry. apply (proj1 (Qgt_alt _ _)). lra. }
      now apply Rpos_exact.
Qed.

Lemma inbetween_ext m l y y' : y == y' -> inbetween m l y -> inbetween m l y'.
Proof. intros E. destruct l; simpl; now rewrite E. Qed.

Lemma Rpos_ext x x' f : x == x' -> Rpos x f -> Rpos x' f.
Proof.
  intros E (t & n & l & C & I & F). exists t, n, l.
  split; [|split; [|exact F]].
  - unfold cexp in *. now rewrite <- E.
  - apply inbetween_ext with (2 := I). now rewrite E.
Qed.

Lemma Rnd_ext x x' f : x == x' -> Rnd x f -> Rnd x' f.
Proof.
  intros E. unfold Rnd.
  replace (x' ?= 0) with (x ?= 0) by now rewrite E.
  destruct (x ?= 0); trivial.
  - intros (f' & H & ->). exists f'. split; [|reflexivity].
    apply Rpos_ext with (2 := H). now rewrite E.
  - now apply Rpos_ext.
Qed.

(** The sign is carried apart from the rounding. *)
Lemma binary_round_aux_sign s m e l :
  binary_round_aux prec emax s m e l =
  if s then SFopp (binary_round_aux prec emax false m e l)
  else binary_round_aux prec emax false m e l.
Proof.
  destruct s; [|reflexivity]. unfold binary_round_aux.
  destruct (shr_fexp prec emax m e l) as [mrs' e'].
  match goal with
  | |- context [shr_fexp prec emax ?n e' loc_Exact] =>
      destruct (shr_fexp prec emax n e' loc_Exact) as [mrs'' e'']
  end.
  destruct (shr_m mrs''); try reflexivity.
  now destruct (e'' <=? emax - prec)%Z.
Qed.

Lemma Rnd_signed (s : bool) x f :
  0 < x -> Rpos x f ->
  Rnd (if s then - x else x) (if s then SFopp f else f).
Proof.
  intros Hx H. unfold Rnd. destruct s.
  - replace (- x ?= 0) with Lt by (symmetry; apply (proj1 (Qlt_alt _ _)); lra).
    exists f. split; [|reflexivity]. apply Rpos_ext with (2 := H). ring.
  - replace (x ?= 0) with Gt by (symmetry; apply (proj1 (Qgt_alt _ _)); lra).
    exact H.
Qed.

Lemma binary_round_aux_Rnd (s : bool) m e l x :
  0 < x -> (0 <= m)%Z ->
  inbetween m l (x * bpow (- e)) ->
  (e <= fexp prec emax (Zdigits2 m + e))%Z ->
  Rnd (if s then - x else x) (binary_round_aux prec emax s m e l).
Proof.
  intros Hx Hm H He. rewrite binary_round_aux_sign.
  apply Rnd_signed; [exact Hx|]. now apply binary_round_aux_Rpos.
Qed.

Lemma B2Q_finite s m e :
  B2Q (S754_finite s m e) ==
  if s then - (inject_Z (Zpos m) * bpow e) else inject_Z (Zpos m) * bpow e.
Proof.
  destruct s; cbn [B2Q cond_Zopp]; [|reflexivity].
  rewrite inject_Z_opp. ring.
Qed.

(** ** Multiplication *)

Lemma SFmul_Rnd sa ma ea sb mb eb :
  valid_binary (S754_finite sa ma ea) = true ->
  valid_binary (S754_finite sb mb eb) = true ->
  Rnd (B2Q (S754_finite sa ma ea) * B2Q (S754_finite sb mb eb))
      (SFmul prec emax (S754_finite sa ma ea) (S754_finite sb mb eb)).
Proof.
  intros Va Vb.
  destruct (valid_finite _ _ _ Va) as (Ea & Ma & Wa & _).
  destruct (valid_finite _ _ _ Vb) as (Eb & Mb & Wb & _).
  cbn [SFmul].
  set (x := inject_Z (Zpos (ma * mb)) * bpow (ea + eb)).
  assert (Hx : 0 < x) by apply B2Q_pos.
  apply Rnd_ext with (x := if xorb sa sb then - x else x).
  { unfold x.
    destruct sa, sb; cbn [xorb B2Q cond_Zopp];
      rewrite Pos2Z.inj_mul, inject_Z_mult, bpow_plus, ?inject_Z_opp; ring. }
  apply binary_round_aux_Rnd; [exact Hx|lia| |].
  - simpl. unfold x. rewrite <- Qmult_assoc, bpow_cancel. ring.
  - rewrite fexp_eq.
    destruct (Z.eq_dec ea (-1074)) as [->|Na], (Z.eq_dec eb (-1074)) as [->|Nb];
      try lia;
      assert (53 <= Zdigits2 (Zpos (ma * mb)))%Z
        by (apply Zdigits2_ge; [lia|]; rewrite Pos2Z.inj_mul; nia); lia.
Qed.

(** ** Division *)

Lemma Qdiv_lt_half r b : (0 < b)%Z -> (2 * r < b)%Z -> inject_Z r / inject_Z b < 1 # 2.
Proof.
  intros Hb H. apply Qlt_shift_div_r.
  - change 0 with (inject_Z 0). now rewrite <- Zlt_Qlt.
  - rewrite Zlt_Qlt, inject_Z_mult in H. change (inject_Z 2) with 2 in H. lra.
Qed.

Lemma Qdiv_gt_half r b : (0 < b)%Z -> (b < 2 * r)%Z -> 1 # 2 < inject_Z r / inject_Z b.
Proof.
  intros Hb H. apply Qlt_shift_div_l.
  - change 0 with (inject_Z 0). now rewrite <- Zlt_Qlt.
  - rewrite Zlt_Qlt, inject_Z_mult in H. change (inject_Z 2) with 2 in H. lra.
Qed.

Lemma Qdiv_eq_half r b : (0 < b)%Z -> (2 * r = b)%Z -> inject_Z r / inject_Z b == 1 # 2.
Proof.
  intros Hb <-. rewrite inject_Z_mult. change (inject_Z 2) with 2.
  assert (0 < inject_Z r).
  { change 0 with (inject_Z 0). rewrite <- Zlt_Qlt. lia. }
  field. lra.
Qed.

Lemma Qdiv_unit r b : (0 < r < b)%Z -> 0 < inject_Z r / inject_Z b < 1.
Proof.
  intros [Hr Hb].
  assert (0 < inject_Z b).
  { change 0 with (inject_Z 0). rewrite <- Zlt_Qlt. lia. }
  split.
  - apply Qlt_shift_div_l; [assumption|]. rewrite Qmult_0_l.
    change 0 with (inject_Z 0). now rewrite <- Zlt_Qlt.
  - apply Qlt_shift_div_r; [assumption|]. rewrite Qmult_1_l.
    now rewrite <- Zlt_Qlt.
Qed.

Lemma new_location_inbetween b r q :
  (0 < b)%Z -> (0 <= r < b)%Z ->
  inbetween q (new_location b r) (inject_Z q + inject_Z r / inject_Z b).
Proof.
  intros Hb Hr.
  assert (Z0 : inbetween q loc_Exact (inject_Z q + inject_Z 0 / inject_Z b)).
  { simpl. unfold Qdiv. rewrite Qmult_0_l. ring. }
  assert (B : forall c, r <> 0%Z ->
    (inject_Z r / inject_Z b ?= 1 # 2) = c ->
    inbetween q (loc_Inexact c) (inject_Z q + inject_Z r / inject_Z b)).
  { intros c Hn Hc. pose proof (Qdiv_unit r b ltac:(lia)) as [U0 U1].
    simpl. repeat split; try lra. rewrite <- Hc.
    destruct (Qcompare_spec (inject_Z r / inject_Z b) (1 # 2));
      [apply (proj1 (Qeq_alt _ _))|apply (proj1 (Qlt_alt _ _))
       |apply (proj1 (Qgt_alt _ _))]; lra. }
  unfold new_location.
  destruct (Z.even b) eqn:Ev; unfold new_location_even, new_location_odd;
    (destruct (Z.eqb_spec r 0) as [->|Hn]; [exact Z0|apply B; [exact Hn|]]).
  - destruct (Z.compare_spec (2 * r) b) as [H|H|H].
    + apply (proj1 (Qeq_alt _ _)). now apply Qdiv_eq_half.
    + apply (proj1 (Qlt_alt _ _)). now apply Qdiv_lt_half.
    + apply (proj1 (Qgt_alt _ _)). now apply Qdiv_gt_half.
  - assert (Hodd : (2 * r <> b)%Z).
    { intros <-. rewrite Z.even_mul in Ev. discriminate. }
    destruct (Z.compare_spec (2 * r + 1) b) as [H|H|H].
    + apply (proj1 (Qlt_alt _ _)). apply Qdiv_lt_half; lia.
    + apply (proj1 (Qlt_alt _ _)). apply Qdiv_lt_half; lia.
    + apply (proj1 (Qgt_alt _ _)). apply Qdiv_gt_half; lia.
Qed.

Lemma SFdiv_core_binary_spec mx ex my ey :
  let X := (inject_Z (Zpos mx) * bpow ex) / (inject_Z (Zpos my) * bpow ey) in
  let '(q, e', l) := SFdiv_core_binary prec emax (Zpos mx) ex (Zpos my) ey in
  (0 <= q)%Z /\ inbetween q l (X * bpow (- e')) /\
  (e' <= fexp prec emax (Zdigits2 q + e'))%Z.
Proof.
  intros X. unfold SFdiv_core_binary.
  set (d1 := Zdigits2 (Zpos mx)). set (d2 := Zdigits2 (Zpos my)).
  set (e' := Z.min (fexp prec emax (d1 + ex - (d2 + ey))) (ex - ey)).
  set (s := (ex - ey - e')%Z).
  assert (Hs : (0 <= s)%Z) by (unfold s, e'; lia).
  set (m' := match s with
             | Z0 => Zpos mx
             | Zpos _ => Z.shiftl (Zpos mx) s
             | Zneg _ => 0%Z
             end).
  assert (Hm' : m' = (Zpos mx * 2 ^ s)%Z).
  { unfold m'. destruct s as [|p|p] eqn:Es; [lia| |lia].
    now rewrite Z.shiftl_mul_pow2. }
  clearbody m'.
  pose proof (Z_div_mod m' (Zpos my) ltac:(lia)) as DM.
  destruct (Z.div_eucl m' (Zpos my)) as [q r]. destruct DM as [Eq Hr].
  pose proof (Z.pow_pos_nonneg 2 s ltac:(lia) Hs) as P2.
  assert (Hq : (0 <= q)%Z) by nia.
  split; [exact Hq|]. split.
  - apply inbetween_ext with (2 := new_location_inbetween (Zpos my) r q ltac:(lia) Hr).
    assert (E : X * bpow (- e') ==
                inject_Z (Zpos mx) * bpow s / inject_Z (Zpos my)).
    { unfold X. replace s with (ex + (- ey + - e'))%Z by (unfold s; lia).
      rewrite !bpow_plus, !bpow_opp.
      pose proof (bpow_pos ey). pose proof (bpow_pos e').
      generalize dependent (bpow ex). generalize dependent (bpow ey).
      generalize dependent (bpow e'). intros. field.
      repeat split; try lra; discriminate. }
    rewrite E, bpow_Z, <- inject_Z_mult, <- Hm', Eq by exact Hs.
    rewrite inject_Z_plus, inject_Z_mult. field. discriminate.
  - rewrite fexp_eq.
    destruct (Z.le_gt_cases e' (-1074)) as [H|H]; [lia|].
    assert (HA : (e' <= d1 + ex - (d2 + ey) - 53)%Z).
    { unfold e' in H |- *. rewrite fexp_eq in *. lia. }
    destruct (digits2_pos_bounds mx) as [L1 _].
    destruct (digits2_pos_bounds my) as [_ U2].
    fold (Zdigits2 (Zpos mx)) in L1. fold (Zdigits2 (Zpos my)) in U2.
    fold d1 in L1. fold d2 in U2.
    assert (D1 : (0 < d1)%Z) by (unfold d1; simpl; lia).
    assert (D2 : (0 < d2)%Z) by (unfold d2; simpl; lia).
    assert (Hbig : (2 ^ 52 * 2 ^ d2 <= m')%Z).
    { rewrite <- Z.pow_add_r by lia. rewrite Hm'.
      apply Z.le_trans with (2 ^ (d1 - 1) * 2 ^ s)%Z; [|nia].
      rewrite <- Z.pow_add_r by lia. apply Z.pow_le_mono_r; [lia|].
      unfold s. lia. }
    assert (Hq52 : (2 ^ 52 <= q)%Z) by nia.
    pose proof (Zdigits2_ge q 53 ltac:(lia) Hq52). lia.
Qed.

Lemma signed_div (sa sb : bool) a b :
  0 < b ->
  (if xorb sa sb then - (a / b) else a / b) ==
  (if sa then - a else a) / (if sb then - b else b).
Proof. intros Hb. destruct sa, sb; cbn [xorb]; field; lra. Qed.

Lemma SFdiv_Rnd sa ma ea sb mb eb :
  Rnd (B2Q (S754_finite sa ma ea) / B2Q (S754_finite sb mb eb))
      (SFdiv prec emax (S754_finite sa ma ea) (S754_finite sb mb eb)).
Proof.
  cbn [SFdiv].
  pose proof (SFdiv_core_binary_spec ma ea mb eb) as H. cbv zeta in H.
  destruct (SFdiv_core_binary prec emax (Zpos ma) ea (Zpos mb) eb) as [[q e'] l].
  destruct H as (Hq & Hin & He).
  set (X := inject_Z (Zpos ma) * bpow ea / (inject_Z (Zpos mb) * bpow eb)) in *.
  pose proof (B2Q_pos ma ea) as Pa. pose proof (B2Q_pos mb eb) as Pb.
  assert (HX : 0 < X).
  { unfold X. apply Qlt_shift_div_l; [exact Pb|]. now rewrite Qmult_0_l. }
  apply Rnd_ext with (x := if xorb sa sb then - X else X).
  { rewrite !B2Q_finite. unfold X. now apply signed_div. }
  now apply binary_round_aux_Rnd.
Qed.

(** ** Subtraction *)

Lemma Pos_iter_xO m d : Zpos (Pos.iter xO m d) = (Zpos m * 2 ^ Zpos d)%Z.
Proof.
  induction d as [|d IH] using Pos.peano_ind.
  - simpl. lia.
  - rewrite Pos.iter_succ, Pos2Z.inj_xO, IH, Pos2Z.inj_succ, Z.pow_succ_r by lia.
    ring.
Qed.

Lemma shl_align_spec mx ex ez :
  (ez <= ex)%Z ->
  Zpos (fst (shl_align mx ex ez)) = (Zpos mx * 2 ^ (ex - ez))%Z /\
  snd (shl_align mx ex ez) = ez.
Proof.
  intros H. unfold shl_align.
  destruct (ez - ex)%Z as [|p|p] eqn:E; try lia; cbn [fst snd].
  - assert (ex = ez) as -> by lia. rewrite Z.sub_diag. split; [lia|reflexivity].
  - split; [|reflexivity]. rewrite Pos_iter_xO. f_equal. f_equal. lia.
Qed.

Lemma shl_align_id mx ex ez :
  (ex <= ez)%Z -> shl_align mx ex ez = (mx, ex).
Proof.
  intros H. unfold shl_align. destruct (ez - ex)%Z eqn:E; try reflexivity. lia.
Qed.

Lemma Zdigits2_shift m k :
  (0 < m)%Z -> (0 <= k)%Z -> Zdigits2 (m * 2 ^ k) = (Zdigits2 m + k)%Z.
Proof.
  intros Hm Hk. destruct (Zdigits2_bounds m Hm) as [L U].
  pose proof (Zdigits2_pos m Hm) as D.
  pose proof (Z.pow_pos_nonneg 2 k ltac:(lia) Hk) as P.
  apply Zdigits2_unique; [lia|]. split.
  - replace (Zdigits2 m + k - 1)%Z with (Zdigits2 m - 1 + k)%Z by lia.
    rewrite Z.pow_add_r by lia. nia.
  - rewrite Z.pow_add_r by lia. nia.
Qed.

Lemma bpow_split e t : bpow e == bpow (e - t) * bpow t.
Proof. rewrite <- bpow_plus. now replace (e - t + t)%Z with e by lia. Qed.

Lemma binary_round_Rnd (s : bool) m e :
  let x := inject_Z (Zpos m) * bpow e in
  Rnd (if s then - x else x) (binary_round prec emax s m e).
Proof.
  intros x. unfold binary_round.
  set (t := fexp prec emax (Zpos (digits2_pos m) + e)).
  assert (Hx : 0 < x) by apply B2Q_pos.
  destruct (Z.le_gt_cases e t) as [H|H].
  - rewrite shl_align_id by exact H.
    apply binary_round_aux_Rnd; [exact Hx|lia| |exact H].
    simpl. unfold x. rewrite <- Qmult_assoc, bpow_cancel. ring.
  - destruct (shl_align_spec m e t ltac:(lia)) as [E1 E2].
    destruct (shl_align m e t) as [mz ez]. cbn [fst snd] in E1, E2. subst ez.
    apply binary_round_aux_Rnd; [exact Hx|lia| |].
    + simpl. unfold x. rewrite E1, inject_Z_mult, <- bpow_Z by lia.
      rewrite (bpow_split e t).
      rewrite <- !Qmult_assoc, bpow_cancel. ring.
    + rewrite E1, Zdigits2_shift by lia.
      replace (Zdigits2 (Zpos m) + (e - t) + t)%Z with (Zpos (digits2_pos m) + e)%Z
        by (cbn [Zdigits2]; lia).
      fold t. lia.
Qed.

Lemma cond_Zopp_Q (s : bool) m :
  inject_Z (cond_Zopp s m) == if s then - inject_Z m else inject_Z m.
Proof. destruct s; cbn [cond_Zopp]; [now rewrite inject_Z_opp|reflexivity]. Qed.

Lemma binary_normalize_Rnd m e :
  Rnd (inject_Z m * bpow e) (binary_normalize prec emax m e false).
Proof.
  destruct m as [|p|p]; cbn [binary_normalize].
  - unfold Rnd.
    replace (inject_Z 0 * bpow e ?= 0) with Eq
      by (symmetry; apply (proj1 (Qeq_alt _ _)); ring).
    now exists false.
  - exact (binary_round_Rnd false p e).
  - apply Rnd_ext with (2 := binary_round_Rnd true p e).
    change (Zneg p) with (- Zpos p)%Z. rewrite inject_Z_opp. ring.
Qed.

Lemma aligned_value (s : bool) m e ez :
  (ez <= e)%Z ->
  inject_Z (cond_Zopp s (Zpos (fst (shl_align m e ez)))) * bpow ez
  == B2Q (S754_finite s m e).
Proof.
  intros H. destruct (shl_align_spec m e ez H) as [E _].
  cbn [B2Q]. rewrite (bpow_split e ez).
  destruct s; cbn [cond_Zopp];
    rewrite ?inject_Z_opp, E, inject_Z_mult, <- bpow_Z by lia; ring.
Qed.

Lemma SFsub_Rnd sa ma ea sb mb eb :
  Rnd (B2Q (S754_finite sa ma ea) - B2Q (S754_finite sb mb eb))
      (SFsub prec emax (S754_finite sa ma ea) (S754_finite sb mb eb)).
Proof.
  cbn [SFsub]. eapply Rnd_ext; [|apply binary_normalize_Rnd].
  rewrite <- (aligned_value sa ma ea (Z.min ea eb)) by lia.
  rewrite <- (aligned_value sb mb eb (Z.min ea eb)) by lia.
  unfold Z.sub at 1. rewrite inject_Z_plus, inject_Z_opp. ring.
Qed.

(** ** Reals with the two infinities *)

Lemma Rpos_range x f :
  0 < x -> Rpos x f -> (0 <= ord f <= top)%Z /\ is_nan f = false.
Proof.
  intros Hx H. destruct (Rpos_nonneg x f Hx H) as [H0 S].
  destruct (Rpos_ord x f Hx H) as (t & n & l & _ & _ & E & _).
  split; [lia|].
  destruct S as [->|[->|(m & e & ->)]]; reflexivity.
Qed.

Lemma Rnd_range x f : Rnd x f -> (- top <= ord f <= top)%Z /\ is_nan f = false.
Proof.
  unfold Rnd. destruct (Qcompare_spec x 0) as [H|H|H].
  - intros [s ->]. simpl. unfold top. split; [lia|reflexivity].
  - intros (f' & Hf & ->). rewrite ord_opp.
    destruct (Rpos_range (- x) f' ltac:(lra) Hf) as [R N].
    split; [lia|]. now destruct f'.
  - intros Hf. destruct (Rpos_range x f H Hf) as [R N]. split; [lia|exact N].
Qed.

Lemma RndE_not_nan a f : RndE a f -> is_nan f = false.
Proof.
  destruct a; simpl; try (intros ->; reflexivity).
  intros H. now destruct (Rnd_range _ _ H).
Qed.

Lemma RndE_monotone a b f g :
  ext_le a b -> RndE a f -> RndE b g -> (ord f <= ord g)%Z.
Proof.
  destruct a as [|x|], b as [|y|]; simpl; try contradiction; intros H Hf Hg;
    try (now apply Rnd_monotone with (1 := H));
    try (apply Rnd_range in Hf; destruct Hf as [Hf _]);
    try (apply Rnd_range in Hg; destruct Hg as [Hg _]);
    subst; cbn [ord cond_Zopp] in *; unfold top in *; lia.
Qed.

(** Valid finite floats at the same position have the same value. *)
Lemma ord_inj f g :
  valid_binary f = true -> valid_binary g = true ->
  B2E f = Real (B2Q f) -> B2E g = Real (B2Q g) ->
  is_nan f = false -> is_nan g = false ->
  ord f = ord g -> B2Q f == B2Q g.
Proof.
  intros Vf Vg Ff Fg Nf Ng.
  destruct f as [sf|[]| |sf mf ef]; try discriminate;
    destruct g as [sg|[]| |sg mg eg]; try discriminate;
    try (destruct (valid_finite _ _ _ Vf) as (Ef & Mf & Wf & _));
    try (destruct (valid_finite _ _ _ Vg) as (Eg & Mg & Wg & _));
    cbn [ord]; try reflexivity;
    try (destruct sf); try (destruct sg); cbn [cond_Zopp]; intros H; try lia.
  - assert (ef = eg) by lia. subst eg. assert (mf = mg) by lia. now subst.
  - assert (ef = eg) by lia. subst eg. assert (mf = mg) by lia. now subst.
Qed.

Lemma finite_ord_lt_top f :
  valid_binary f = true -> B2E f = Real (B2Q f) -> (- top < ord f < top)%Z.
Proof.
  intros V F. destruct f as [s|[]| |s m e]; try discriminate; unfold top; simpl.
  - lia.
  - lia.
  - destruct (valid_finite _ _ _ V) as (E & M & W & _).
    destruct s; cbn [ord cond_Zopp]; lia.
Qed.

Lemma B2E_real_cases f :
  is_nan f = false -> B2E f = Real (B2Q f) ->
  (exists s, f = S754_zero s) \/ (exists s m e, f = S754_finite s m e).
Proof.
  destruct f as [s|[]| |s m e]; try discriminate; intros _ _; eauto.
Qed.

(** The order of positions is the order of values. *)
Lemma ord_le_B2E f g :
  valid_binary f = true -> valid_binary g = true ->
  is_nan f = false -> is_nan g = false ->
  (ord f <= ord g)%Z -> ext_le (B2E f) (B2E g).
Proof.
  intros Vf Vg Nf Ng H.
  destruct (B2E f) as [|x|] eqn:Ef; [exact I| |].
  - destruct (B2E g) as [|y|] eqn:Eg; [|simpl|exact I].
    + exfalso. destruct g as [?|[]| |? ? ?]; try discriminate.
      assert (Rf : B2E f = Real (B2Q f)) by (destruct f as [?|[]| |? ? ?]; try discriminate; reflexivity).
      pose proof (finite_ord_lt_top f Vf Rf). cbn [ord cond_Zopp] in H. lia.
    + assert (Rf : B2E f = Real (B2Q f)) by (destruct f as [?|[]| |? ? ?]; try discriminate; reflexivity).
      assert (Rg : B2E g = Real (B2Q g)) by (destruct g as [?|[]| |? ? ?]; try discriminate; reflexivity).
      rewrite Rf in Ef. rewrite Rg in Eg. injection Ef as <-. injection Eg as <-.
      destruct (Qlt_le_dec (B2Q g) (B2Q f)) as [Hlt|Hle]; [|exact Hle].
      exfalso.
      pose proof (Rnd_exact f Vf (B2E_real_cases f Nf Rf)) as Xf.
      pose proof (Rnd_exact g Vg (B2E_real_cases g Ng Rg)) as Xg.
      pose proof (Rnd_monotone _ _ _ _ (Qlt_le_weak _ _ Hlt) Xg Xf) as H'.
      pose proof (ord_inj f g Vf Vg Rf Rg Nf Ng ltac:(lia)). lra.
  - destruct f as [?|[]| |? ? ?]; try discriminate.
    destruct (B2E g) as [|y|] eqn:Eg; [|simpl|exact I].
    + destruct g as [?|[]| |? ? ?]; try discriminate. cbn [ord cond_Zopp] in H. unfold top in H. lia.
    + assert (Rg : B2E g = Real (B2Q g)) by (destruct g as [?|[]| |? ? ?]; try discriminate; reflexivity).
      pose proof (finite_ord_lt_top g Vg Rg). cbn [ord cond_Zopp] in H. lia.
Qed.

Lemma Rnd_zero x (s : bool) : x == 0 -> Rnd x (S754_zero s).
Proof.
  intros H. unfold Rnd.
  replace (x ?= 0) with Eq by (symmetry; now apply (proj1 (Qeq_alt _ _))).
  now exists s.
Qed.

(** ** The operations on any operand *)

Lemma SFdiv_RndE a mc ec :
  is_nan a = false ->
  RndE (ext_map (fun q => q / B2Q (S754_finite false mc ec)) (B2E a))
       (SFdiv prec emax a (S754_finite false mc ec)).
Proof.
  intros N. destruct a as [s|[]| |s m e]; try discriminate; cbn [B2E ext_map RndE].
  - cbn [SFdiv]. apply Rnd_zero. cbn [B2Q]. unfold Qdiv. ring.
  - reflexivity.
  - reflexivity.
  - apply SFdiv_Rnd.
Qed.

Lemma SFmul_RndE a mc ec :
  valid_binary a = true -> valid_binary (S754_finite false mc ec) = true ->
  is_nan a = false ->
  RndE (ext_map (fun q => q * B2Q (S754_finite false mc ec)) (B2E a))
       (SFmul prec emax a (S754_finite false mc ec)).
Proof.
  intros Va Vc N.
  destruct a as [s|[]| |s m e]; try discriminate; cbn [B2E ext_map RndE].
  - cbn [SFmul]. apply Rnd_zero. cbn [B2Q]. ring.
  - reflexivity.
  - reflexivity.
  - now apply SFmul_Rnd.
Qed.

Lemma SFsub_RndE a sc mc ec :
  valid_binary (S754_finite sc mc ec) = true ->
  is_nan a = false ->
  RndE (ext_map (fun q => q - B2Q (S754_finite sc mc ec)) (B2E a))
       (SFsub prec emax a (S754_finite sc mc ec)).
Proof.
  intros Vc N.
  destruct a as [s|[]| |s m e]; try discriminate; cbn [B2E ext_map RndE].
  - cbn [SFsub].
    apply Rnd_ext with (x := B2Q (S754_finite (negb sc) mc ec)).
    + rewrite !B2Q_finite. cbn [B2Q]. destruct sc; cbn [negb]; ring.
    + apply Rnd_exact; [exact Vc|]. right. eauto.
  - reflexivity.
  - reflexivity.
  - apply SFsub_Rnd.
Qed.

(** ** Comparisons of primitive floats *)

Lemma leb_ord x y :
  (x <=? y)%float = true <->
  is_nan (Prim2SF x) = false /\ is_nan (Prim2SF y) = false /\
  (ord (Prim2SF x) <= ord (Prim2SF y))%Z.
Proof.
  rewrite leb_spec. split.
  - intros H. destruct (SFleb_not_nan _ _ H) as [Nx Ny].
    rewrite SFleb_ord in H by (auto using Prim2SF_valid).
    apply Z.leb_le in H. auto.
  - intros (Nx & Ny & H).
    rewrite SFleb_ord by (auto using Prim2SF_valid). now apply Z.leb_le.
Qed.

Lemma ltb_ord x y :
  (x <? y)%float = true <->
  is_nan (Prim2SF x) = false /\ is_nan (Prim2SF y) = false /\
  (ord (Prim2SF x) < ord (Prim2SF y))%Z.
Proof.
  rewrite ltb_spec. split.
  - intros H. destruct (SFltb_not_nan _ _ H) as [Nx Ny].
    rewrite SFltb_ord in H by (auto using Prim2SF_valid).
    apply Z.ltb_lt in H. auto.
  - intros (Nx & Ny & H).
    rewrite SFltb_ord by (auto using Prim2SF_valid). now apply Z.ltb_lt.
Qed.

(** An operation that rounds a monotone function of its operand is
    monotone on floats. *)
Lemma monotone_op (op : float -> float) (g : Q -> Q) :
  (forall x y, x <= y -> g x <= g y) ->
  (forall a, is_nan (Prim2SF a) = false ->
             RndE (ext_map g (B2E (Prim2SF a))) (Prim2SF (op a))) ->
  forall a1 a2, (a1 <=? a2)%float = true -> (op a1 <=? op a2)%float = true.
Proof.
  intros Hg Hop a1 a2 H. apply leb_ord in H. destruct H as (N1 & N2 & H).
  pose proof (Hop a1 N1) as R1. pose proof (Hop a2 N2) as R2.
  apply leb_ord. split; [exact (RndE_not_nan _ _ R1)|].
  split; [exact (RndE_not_nan _ _ R2)|].
  apply RndE_monotone with (2 := R1) (3 := R2).
  pose proof (ord_le_B2E _ _ (Prim2SF_valid a1) (Prim2SF_valid a2) N1 N2 H) as E.
  destruct (B2E (Prim2SF a1)), (B2E (Prim2SF a2)); simpl in *; auto.
Qed.

Lemma valid_as c f : Prim2SF c = f -> valid_binary f = true.
Proof. intros <-. apply Prim2SF_valid. Qed.

Theorem sub_monotone (a1 a2 c : float) s m e :
  Prim2SF c = S754_finite s m e ->
  (a1 <=? a2)%float = true -> (a1 - c <=? a2 - c)%float = true.
Proof.
  intros Hc.
  apply monotone_op with (op := fun a => (a - c)%float)
                         (g := fun q => q - B2Q (S754_finite s m e)).
  - intros x y H. lra.
  - intros a N. rewrite sub_spec, Hc. apply SFsub_RndE; [|exact N].
    exact (valid_as c _ Hc).
Qed.

Theorem div_monotone (a1 a2 c : float) m e :
  Prim2SF c = S754_finite false m e ->
  (a1 <=? a2)%float = true -> (a1 / c <=? a2 / c)%float = true.
Proof.
  intros Hc.
  apply monotone_op with (op := fun a => (a / c)%float)
                         (g := fun q => q / B2Q (S754_finite false m e)).
  - intros x y H. pose proof (B2Q_pos m e) as P. cbn [B2Q cond_Zopp].
    unfold Qdiv. apply Qmult_le_compat_r; [exact H|].
    apply Qlt_le_weak, Qinv_lt_0_compat, P.
  - intros a N. rewrite div_spec, Hc. now apply SFdiv_RndE.
Qed.

Theorem mul_monotone (a1 a2 c : float) m e :
  Prim2SF c = S754_finite false m e ->
  (a1 <=? a2)%float = true -> (a1 * c <=? a2 * c)%float = true.
Proof.
  intros Hc.
  apply monotone_op with (op := fun a => (a * c)%float)
                         (g := fun q => q * B2Q (S754_finite false m e)).
  - intros x y H. pose proof (B2Q_pos m e) as P. cbn [B2Q cond_Zopp].
    apply Qmult_le_compat_r; [exact H|]. apply Qlt_le_weak, P.
  - intros a N. rewrite mul_spec, Hc.
    apply SFmul_RndE; [apply Prim2SF_valid|exact (valid_as c _ Hc)|exact N].
Qed.

End Binary64.

(** * Properties *)

Import App.

(** ** The calculator *)

Lemma grams_nonzero : (GRAMS_PER_OUNCE =? 0)%float = false.
Proof. reflexivity. Qed.

Lemma convert_eq (xau_price exchange_rate : float) :
  convert xau_price exchange_rate
  = Ok (xau_price * exchange_rate / GRAMS_PER_OUNCE)%float.
Proof. unfold convert, truediv. now rewrite grams_nonzero. Qed.

Lemma premium_eq (ctf cost : float) :
  premium ctf cost =
  if (cost =? 0)%float then Raise ZeroDivisionError
  else Ok {| intl_gold_cny_g := cost;
             price_diff := (ctf - cost)%float;
             premium_rate := ((ctf - cost) / cost * 100)%float |}.
Proof. unfold premium, truediv. now destruct (cost =? 0)%float. Qed.

Lemma render_eq (xau_price exchange_rate ctf : float) :
  render xau_price exchange_rate ctf =
  if (0 <? xau_price)%float then
    r <- premium ctf (xau_price * exchange_rate / GRAMS_PER_OUNCE)%float ;;
    Ok (Dashboard r (state_msg (premium_rate r)))
  else Ok Unavailable.
Proof. unfold render. now rewrite convert_eq. Qed.

(** C2: whenever the calculator produces a result, its difference is the
    reference price minus the converted cost, and its percentage is that
    difference divided by the converted cost, times 100. *)
Theorem premium_formulas (xau_price exchange_rate ctf : float)
  (r : PremiumResult) (b : band) :
  render xau_price exchange_rate ctf = Ok (Dashboard r b) ->
  price_diff r = (ctf - intl_gold_cny_g r)%float /\
  premium_rate r = (price_diff r / intl_gold_cny_g r * 100)%float.
Proof.
  rewrite render_eq, premium_eq.
  destruct (0 <? xau_price)%float; [|discriminate].
  destruct (_ =? 0)%float; cbn; [discriminate|].
  intros H. injection H as <- _. now split.
Qed.

Lemma premium_formulas_witness :
  (268.09149131126719 = 736 - 467.90850868873281)%float /\
  (57.295707672118859 = 268.09149131126719 / 467.90850868873281 * 100)%float.
Proof.
  exact (premium_formulas 2034.50 7.1534 736
           {| intl_gold_cny_g := 467.90850868873281;
              price_diff := 268.09149131126719;
              premium_rate := 57.295707672118859 |} High eq_refl).
Defined.

(** C6: the band is High above 30, Moderate above 20 and not above 30, Low
    otherwise (a NaN percentage included); it is always one of the three. *)
Theorem state_msg_bands (p : float) :
  ((30 <? p)%float = true -> state_msg p = High) /\
  ((30 <? p)%float = false -> (20 <? p)%float = true -> state_msg p = Moderate) /\
  ((30 <? p)%float = false -> (20 <? p)%float = false -> state_msg p = Low) /\
  (state_msg p = Low \/ state_msg p = Moderate \/ state_msg p = High).
Proof.
  unfold state_msg.
  destruct (30 <? p)%float, (20 <? p)%float; repeat split; auto; discriminate.
Qed.

(** C3, as the code has it: the one guard is [xau_price > 0].  Without it
    nothing is computed; with it, a converted cost equal to zero makes the
    division raise ZeroDivisionError, which nothing catches, and any other
    converted cost, a negative one or a NaN included, is divided by. *)
Theorem division_guard (xau_price exchange_rate ctf : float) :
  let cost := (xau_price * exchange_rate / GRAMS_PER_OUNCE)%float in
  ((0 <? xau_price)%float = false ->
     render xau_price exchange_rate ctf = Ok Unavailable) /\
  ((0 <? xau_price)%float = true -> (cost =? 0)%float = true ->
     render xau_price exchange_rate ctf = Raise ZeroDivisionError) /\
  ((0 <? xau_price)%float = true -> (cost =? 0)%float = false ->
     render xau_price exchange_rate ctf =
     Ok (Dashboard {| intl_gold_cny_g := cost;
                      price_diff := (ctf - cost)%float;
                      premium_rate := ((ctf - cost) / cost * 100)%float |}
                   (state_msg ((ctf - cost) / cost * 100)%float))).
Proof.
  intros cost. rewrite render_eq, premium_eq. fold cost.
  repeat split; intros H; rewrite H; trivial; intros H'; now rewrite H'.
Qed.

(** C3, refuted as stated: a positive quote with a negative rate gives a
    negative converted cost, and the division is carried out. *)
Lemma negative_cost_is_divided :
  (0 <? 2034.50)%float = true /\
  (-7.1534 <=? 0)%float = true /\
  (2034.50 * -7.1534 / GRAMS_PER_OUNCE <=? 0)%float = true /\
  render 2034.50 (-7.1534) 736 =
  Ok (Dashboard {| intl_gold_cny_g := -467.90850868873281;
                   price_diff := 1203.9085086887328;
                   premium_rate := -257.29570767211885 |} Low).
Proof. repeat split. Qed.

(** C1, refuted as stated: two positive inputs whose product underflows
    give a converted cost of zero. *)
Lemma tiny_quote_zero_cost :
  (0 <? 1e-200)%float = true /\
  (0 <? GRAMS_PER_OUNCE)%float = true /\
  convert 1e-200 1e-200 = Ok 0%float /\
  (0 <? 1e-200 * 1e-200 / GRAMS_PER_OUNCE)%float = false.
Proof. repeat split. Qed.

(** C8, refuted as stated: on the example the converted cost and the
    difference are more than 0.1 away from 467.80 and 268.20, and the
    percentage more than 0.04 away from 57.34. *)
Lemma example_values_off :
  exists r,
    render 2034.50 7.1534 736 = Ok (Dashboard r High) /\
    within (46770 # 100) (46790 # 100) (intl_gold_cny_g r) = false /\
    within (26810 # 100) (26830 # 100) (price_diff r) = false /\
    within (5730 # 100) (5738 # 100) (premium_rate r) = false.
Proof. eexists. split; [reflexivity|]. now vm_compute. Qed.

(** C8, as the code computes it: the example gives a converted cost of
    467.91, a difference of 268.09 and a percentage of 57.30, each to two
    decimals, and the band is High. *)
Theorem example_values :
  exists r,
    render 2034.50 7.1534 736 = Ok (Dashboard r High) /\
    within (467905 # 1000) (467915 # 1000) (intl_gold_cny_g r) = true /\
    within (268085 # 1000) (268095 # 1000) (price_diff r) = true /\
    within (57295 # 1000) (57305 # 1000) (premium_rate r) = true.
Proof. eexists. split; [reflexivity|]. now vm_compute. Qed.

(** ** The guard and the fetcher *)

Lemma zero_not_positive (x : float) :
  (x =? 0)%float = true -> (0 <? x)%float = false.
Proof.
  rewrite FloatAxioms.eqb_spec, FloatAxioms.ltb_spec.
  change (Prim2SF 0) with (S754_zero false).
  now destruct (Prim2SF x) as [[]|[]| |[] m e].
Qed.

Lemma script_eq (float_of_str : string -> option float)
  (net : http_result) (ctf : float) :
  script float_of_str net ctf =
  let shown := snd (get_realtime_data float_of_str net) in
  let q := fst (get_realtime_data float_of_str net) in
  match render (fst q) (snd q) ctf with
  | Ok Unavailable => (shown ++ [Connecting], Ok Unavailable)
  | other => (shown, other)
  end.
Proof.
  unfold script. now destruct (get_realtime_data float_of_str net) as [[x r] shown].
Qed.

(** C4: when the fetched unit price equals zero the run ends with the
    "unavailable" message and no result; a result is only ever produced
    from a unit price above zero. *)
Theorem zero_price_never_computed (float_of_str : string -> option float)
  (net : http_result) (ctf : float) :
  let fetched := get_realtime_data float_of_str net in
  ((fst (fst fetched) =? 0)%float = true ->
     script float_of_str net ctf = (snd fetched ++ [Connecting], Ok Unavailable)) /\
  (forall r b, snd (script float_of_str net ctf) = Ok (Dashboard r b) ->
     (0 <? fst (fst fetched))%float = true).
Proof.
  intros fetched. rewrite script_eq. fold fetched. cbv zeta.
  rewrite render_eq. split.
  - intros H. now rewrite (zero_not_positive _ H).
  - intros r b. destruct (0 <? fst (fst fetched))%float; [trivial|]. discriminate.
Qed.

Lemma fetch_failure_raises (float_of_str : string -> option float)
  (net : http_result) :
  fetch_failure float_of_str net ->
  exists e, fetch_body float_of_str net = Raise e.
Proof.
  unfold fetch_body, py_float, index, group1, requests_get.
  destruct 1 as [|text H|text line field H1 H2 H3|text H|text line H1 H2
                 |text line field H1 H2 H3]; cbn [bind].
  - now eexists.
  - rewrite H. now eexists.
  - rewrite H1. cbn [bind]. rewrite H2. cbn [bind]. rewrite H3. now eexists.
  - destruct (re_search opening_xau closing text) as [l|]; cbn [bind]; [|now eexists].
    destruct (nth_error (split comma l) 0); cbn [bind]; [|now eexists].
    destruct (float_of_str s); cbn [bind]; [|now eexists].
    rewrite H. now eexists.
  - destruct (re_search opening_xau closing text) as [l|]; cbn [bind]; [|now eexists].
    destruct (nth_error (split comma l) 0); cbn [bind]; [|now eexists].
    destruct (float_of_str s); cbn [bind]; [|now eexists].
    rewrite H1. cbn [bind]. rewrite H2. now eexists.
  - destruct (re_search opening_xau closing text) as [l|]; cbn [bind]; [|now eexists].
    destruct (nth_error (split comma l) 0); cbn [bind]; [|now eexists].
    destruct (float_of_str s); cbn [bind]; [|now eexists].
    rewrite H1. cbn [bind]. rewrite H2. cbn [bind]. rewrite H3. now eexists.
Qed.

Lemma sentinel_is_unavailable (ctf : float) : render 0 0 ctf = Ok Unavailable.
Proof. reflexivity. Qed.

(** C5: every failure of the fetch stage is caught: the fetcher returns
    (it raises nothing), it shows one error message naming the cause, the
    run goes on to the "unavailable" message, and no result is produced. *)
Theorem fetch_failure_is_reported (float_of_str : string -> option float)
  (net : http_result) (ctf : float) :
  fetch_failure float_of_str net ->
  exists e,
    get_realtime_data float_of_str net = ((0%float, 0%float), [FetchFailed e]) /\
    script float_of_str net ctf = ([FetchFailed e; Connecting], Ok Unavailable).
Proof.
  intros H. destruct (fetch_failure_raises _ _ H) as [e He].
  exists e. unfold script, get_realtime_data. rewrite He.
  now rewrite sentinel_is_unavailable.
Qed.

Lemma fetch_failure_is_reported_witness :
  exists e,
    get_realtime_data decimal_float (Response sample_text_no_rate)
    = ((0%float, 0%float), [FetchFailed e]) /\
    script decimal_float (Response sample_text_no_rate) 736
    = ([FetchFailed e; Connecting], Ok Unavailable).
Proof.
  apply (fetch_failure_is_reported decimal_float (Response sample_text_no_rate) 736).
  apply currency_line_missing. reflexivity.
Defined.

(** C10: the fetcher returns either both parsed numbers, with nothing
    shown, or the pair (0, 0) with an error message; a commodity price
    that parsed is not returned when the currency rate did not. *)
Theorem fetch_all_or_nothing (float_of_str : string -> option float)
  (net : http_result) :
  (exists xau_price usd_cny_rate,
     parses float_of_str net xau_price usd_cny_rate /\
     get_realtime_data float_of_str net = ((xau_price, usd_cny_rate), [])) \/
  (exists e,
     (forall xau_price usd_cny_rate, ~ parses float_of_str net xau_price usd_cny_rate) /\
     get_realtime_data float_of_str net = ((0%float, 0%float), [FetchFailed e])).
Proof.
  unfold get_realtime_data, fetch_body, parses, py_float, index, group1, requests_get.
  destruct net as [|text]; cbn [bind].
  { right. eexists. split; [|reflexivity].
    intros x r (t & ? & ? & ? & ? & H & _). discriminate. }
  destruct (re_search opening_xau closing text) as [xl|] eqn:E1; cbn [bind].
  2:{ right. eexists. split; [|reflexivity].
      intros x r (t & ? & ? & ? & ? & H & H1 & _). injection H as <-. congruence. }
  destruct (nth_error (split comma xl) 0) as [xf|] eqn:E2; cbn [bind].
  2:{ right. eexists. split; [|reflexivity].
      intros x r (t & ? & ? & ? & ? & H & H1 & H2 & _). injection H as <-. congruence. }
  destruct (float_of_str xf) as [x|] eqn:E3; cbn [bind].
  2:{ right. eexists. split; [|reflexivity].
      intros x r (t & ? & ? & ? & ? & H & H1 & H2 & H3 & _). injection H as <-. congruence. }
  destruct (re_search opening_rate closing text) as [rl|] eqn:E4; cbn [bind].
  2:{ right. eexists. split; [|reflexivity].
      intros ? ? (t & ? & ? & ? & ? & H & _ & _ & _ & H4 & _). injection H as <-. congruence. }
  destruct (nth_error (split comma rl) 1) as [rf|] eqn:E5; cbn [bind].
  2:{ right. eexists. split; [|reflexivity].
      intros ? ? (t & ? & ? & ? & ? & H & _ & _ & _ & H4 & H5 & _). injection H as <-. congruence. }
  destruct (float_of_str rf) as [r|] eqn:E6; cbn [bind].
  2:{ right. eexists. split; [|reflexivity].
      intros ? ? (t & ? & ? & ? & ? & H & _ & _ & _ & H4 & H5 & H6). injection H as <-. congruence. }
  left. exists x, r. split; [|reflexivity].
  exists text, xl, xf, rl, rf. repeat split; assumption.
Qed.

(** ** The cache *)

(** C9, as the code has it: after a call that went to the network at
    [t1], a call at [t2] with no refresh in between and [t2 < t1 + 30]
    issues no network call and gives the stored value back; one at
    [t2 >= t1 + 30] goes to the network again. *)
Theorem cache_window (float_of_str : string -> option float) (c : cache)
  (clicked : bool) (t1 t2 : Z) (net1 net2 : http_result) :
  snd (refresh_and_fetch float_of_str c clicked t1 net1) = 1%nat ->
  let c1 := fst (fst (refresh_and_fetch float_of_str c clicked t1 net1)) in
  let v1 := snd (fst (refresh_and_fetch float_of_str c clicked t1 net1)) in
  v1 = get_realtime_data float_of_str net1 /\
  ((t2 < t1 + ttl)%Z ->
     refresh_and_fetch float_of_str c1 false t2 net2 = (c1, v1, 0%nat)) /\
  ((t1 + ttl <= t2)%Z ->
     snd (refresh_and_fetch float_of_str c1 false t2 net2) = 1%nat /\
     snd (fst (refresh_and_fetch float_of_str c1 false t2 net2))
     = get_realtime_data float_of_str net2).
Proof.
  unfold refresh_and_fetch, cached_get_realtime_data, fresh.
  destruct (if clicked then clear c else c) as [e|]; cbn.
  - destruct (t1 <? stored_at e + ttl)%Z; cbn; [discriminate|].
    intros _. split; [reflexivity|]. split; intros H.
    + apply Z.ltb_lt in H. now rewrite H.
    + apply Z.ltb_ge in H. now rewrite H.
  - intros _. split; [reflexivity|]. split; intros H.
    + apply Z.ltb_lt in H. now rewrite H.
    + apply Z.ltb_ge in H. now rewrite H.
Qed.

Lemma cache_window_witness :
  let f := refresh_and_fetch decimal_float in
  let c1 := fst (fst (f None false 0%Z (Response sample_text))) in
  let v1 := snd (fst (f None false 0%Z (Response sample_text))) in
  v1 = get_realtime_data decimal_float (Response sample_text) /\
  ((29 < 0 + ttl)%Z -> f c1 false 29%Z RequestFailed = (c1, v1, 0%nat)) /\
  ((0 + ttl <= 29)%Z ->
     snd (f c1 false 29%Z RequestFailed) = 1%nat /\
     snd (fst (f c1 false 29%Z RequestFailed))
     = get_realtime_data decimal_float RequestFailed).
Proof.
  exact (cache_window decimal_float None false 0 29
           (Response sample_text) RequestFailed eq_refl).
Defined.

(** C9, refuted as stated: two fetches one time unit apart, with the
    refresh button pressed before the second, issue two network calls. *)
Lemma refresh_within_window_fetches_again :
  let first := refresh_and_fetch decimal_float None false 0 (Response sample_text) in
  let second :=
    refresh_and_fetch decimal_float (fst (fst first)) true 1 RequestFailed in
  (1 - 0 < ttl)%Z /\
  (snd first + snd second = 2)%nat /\
  snd (fst second) <> snd (fst first).
Proof. repeat split. discriminate. Qed.

(** ** Order: the sign of the cost and the bands *)

Import Binary64.

Lemma positive_cases (x : float) :
  (0 <? x)%float = true ->
  (exists m e, Prim2SF x = S754_finite false m e) \/
  Prim2SF x = S754_infinity false.
Proof.
  rewrite FloatAxioms.ltb_spec. change (Prim2SF 0) with (S754_zero false).
  destruct (Prim2SF x) as [[]|[]| |[] m e]; try discriminate; eauto.
Qed.

Lemma positive_nonzero (x : float) :
  (0 <? x)%float = true -> (x =? 0)%float = false.
Proof.
  intros H. destruct (x =? 0)%float eqn:E; [|reflexivity].
  rewrite (zero_not_positive x E) in H. discriminate.
Qed.

Lemma ltb_leb (x y : float) :
  (x <? y)%float = true -> (x <=? y)%float = true.
Proof.
  rewrite ltb_ord, leb_ord. intros (Nx & Ny & H). repeat split; trivial. lia.
Qed.

Lemma leb_trans (x y z : float) :
  (x <=? y)%float = true -> (y <=? z)%float = true -> (x <=? z)%float = true.
Proof.
  rewrite !leb_ord. intros (Nx & Ny & H) (_ & Nz & H').
  repeat split; trivial. lia.
Qed.

Lemma ltb_leb_trans (t x y : float) :
  (t <? x)%float = true -> (x <=? y)%float = true -> (t <? y)%float = true.
Proof.
  rewrite !ltb_ord, leb_ord. intros (Nt & Nx & H) (_ & Ny & H').
  repeat split; trivial. lia.
Qed.

(** The band does not go down when the percentage goes up. *)
Lemma state_msg_monotone (p1 p2 : float) :
  (p1 <=? p2)%float = true -> band_le (state_msg p1) (state_msg p2).
Proof.
  intros H. unfold state_msg, band_le.
  destruct (30 <? p1)%float eqn:A1.
  { now rewrite (ltb_leb_trans _ _ _ A1 H). }
  destruct (20 <? p1)%float eqn:B1.
  { rewrite (ltb_leb_trans _ _ _ B1 H).
    destruct (30 <? p2)%float; simpl; lia. }
  simpl. lia.
Qed.

(** The percentage of lines 107-108 as a function of the reference
    price, for a finite positive cost. *)
Lemma percentage_monotone (cost r1 r2 : float) m e :
  Prim2SF cost = S754_finite false m e ->
  (r1 <=? r2)%float = true ->
  ((r1 - cost) / cost * 100 <=? (r2 - cost) / cost * 100)%float = true.
Proof.
  intros Hc H.
  apply mul_monotone with (m := 7036874417766400%positive) (e := (-46)%Z);
    [reflexivity|].
  apply div_monotone with (1 := Hc).
  now apply sub_monotone with (1 := Hc).
Qed.

(** With an infinite cost the percentage is a NaN, whatever the
    reference price: the band is Low. *)
Lemma infinite_cost_low (cost r : float) :
  Prim2SF cost = S754_infinity false ->
  state_msg ((r - cost) / cost * 100)%float = Low.
Proof.
  intros Hc. unfold state_msg.
  assert (N : Prim2SF ((r - cost) / cost * 100) = S754_nan).
  { rewrite FloatAxioms.mul_spec, FloatAxioms.div_spec, FloatAxioms.sub_spec, Hc.
    now destruct (Prim2SF r) as [[]|[]| |[] ? ?]. }
  rewrite !FloatAxioms.ltb_spec, N. reflexivity.
Qed.

(** C7: for a converted cost above zero and reference prices
    [r1 <= r2], both percentages are computed (the division raises
    nothing) and the band from [r2] is not below the band from [r1]. *)
Theorem band_monotone (cost r1 r2 : float) :
  (0 <? cost)%float = true ->
  (r1 <=? r2)%float = true ->
  exists p1 p2,
    premium r1 cost = Ok p1 /\ premium r2 cost = Ok p2 /\
    band_le (state_msg (premium_rate p1)) (state_msg (premium_rate p2)).
Proof.
  intros Hc H. rewrite !premium_eq, (positive_nonzero cost Hc).
  eexists. eexists. split; [reflexivity|]. split; [reflexivity|].
  cbn [premium_rate].
  destruct (positive_cases cost Hc) as [(m & e & Fc)|Ic].
  - apply state_msg_monotone. now apply percentage_monotone with (1 := Fc).
  - rewrite !(infinite_cost_low cost _ Ic). unfold band_le. simpl. lia.
Qed.

Lemma band_monotone_witness :
  exists p1 p2,
    premium 500 467.90850868873281 = Ok p1 /\
    premium 1000 467.90850868873281 = Ok p2 /\
    band_le (state_msg (premium_rate p1)) (state_msg (premium_rate p2)).
Proof.
  exact (band_monotone 467.90850868873281 500 1000 eq_refl eq_refl).
Defined.

Lemma SFmul_comm (x y : spec_float) : SFmul prec emax x y = SFmul prec emax y x.
Proof.
  destruct x as [sx|sx| |sx mx ex], y as [sy|sy| |sy my ey]; cbn [SFmul];
    try reflexivity; try (now rewrite xorb_comm).
  now rewrite xorb_comm, Pos.mul_comm, Z.add_comm.
Qed.

Lemma mul_comm (x y : float) : (x * y = y * x)%float.
Proof.
  apply Prim2SF_inj. rewrite !FloatAxioms.mul_spec. apply SFmul_comm.
Qed.

Lemma grams_finite :
  Prim2SF GRAMS_PER_OUNCE = S754_finite false 8754856938119889 (-48).
Proof. reflexivity. Qed.

(** With an infinite rate the converted cost of a positive price is
    infinite. *)
Lemma infinite_rate_cost (xau_price exchange_rate : float) :
  (0 <? xau_price)%float = true ->
  Prim2SF exchange_rate = S754_infinity false ->
  Prim2SF (xau_price * exchange_rate / GRAMS_PER_OUNCE) = S754_infinity false.
Proof.
  intros Hx Ir.
  rewrite FloatAxioms.div_spec, FloatAxioms.mul_spec, Ir, grams_finite.
  destruct (positive_cases xau_price Hx) as [(m & e & ->)| ->]; reflexivity.
Qed.

(** C1, as the code computes it: for a unit price and a rate above zero
    the converted cost is their product divided by 31.1035, the division
    raises nothing, and the result is at least zero (never negative,
    never a NaN); it is above zero when both inputs are at least 1. *)
Theorem converted_cost_nonneg (xau_price exchange_rate : float) :
  (0 <? xau_price)%float = true ->
  (0 <? exchange_rate)%float = true ->
  GRAMS_PER_OUNCE = 31.1035%float /\
  convert xau_price exchange_rate
  = Ok (xau_price * exchange_rate / GRAMS_PER_OUNCE)%float /\
  (0 <=? xau_price * exchange_rate / GRAMS_PER_OUNCE)%float = true /\
  ((1 <=? xau_price)%float = true -> (1 <=? exchange_rate)%float = true ->
   (0 <? xau_price * exchange_rate / GRAMS_PER_OUNCE)%float = true).
Proof.
  intros Hx Hr. split; [reflexivity|]. split; [apply convert_eq|].
  destruct (positive_cases exchange_rate Hr) as [(m & e & Fr)|Ir].
  - split.
    + apply leb_trans with (0 * exchange_rate / GRAMS_PER_OUNCE)%float.
      * rewrite FloatAxioms.leb_spec, FloatAxioms.div_spec, FloatAxioms.mul_spec.
        rewrite Fr, grams_finite. reflexivity.
      * apply div_monotone with (1 := grams_finite).
        apply mul_monotone with (1 := Fr). now apply ltb_leb.
    + intros H1 H2.
      apply ltb_leb_trans with (1 * 1 / GRAMS_PER_OUNCE)%float; [reflexivity|].
      apply div_monotone with (1 := grams_finite).
      apply leb_trans with (1 * exchange_rate)%float.
      * rewrite (mul_comm 1 exchange_rate).
        apply mul_monotone with (m := 4503599627370496%positive) (e := (-52)%Z);
          [reflexivity|exact H2].
      * now apply mul_monotone with (1 := Fr).
  - pose proof (infinite_rate_cost _ _ Hx Ir) as E. split.
    + now rewrite FloatAxioms.leb_spec, E.
    + intros _ _. now rewrite FloatAxioms.ltb_spec, E.
Qed.

Lemma converted_cost_nonneg_witness :
  GRAMS_PER_OUNCE = 31.1035%float /\
  convert 2034.50 7.1534 = Ok (2034.50 * 7.1534 / GRAMS_PER_OUNCE)%float /\
  (0 <=? 2034.50 * 7.1534 / GRAMS_PER_OUNCE)%float = true /\
  ((1 <=? 2034.50)%float = true -> (1 <=? 7.1534)%float = true ->
   (0 <? 2034.50 * 7.1534 / GRAMS_PER_OUNCE)%float = true).
Proof. exact (converted_cost_nonneg 2034.50 7.1534 eq_refl eq_refl). Defined.

(** * More of the script *)

(** ** More order: the other operand *)

Lemma SFopp_involutive (f : spec_float) : SFopp (SFopp f) = f.
Proof. destruct f as [[]|[]| |[] m e]; reflexivity. Qed.

Lemma Rnd_opp (x : Q) (f : spec_float) : Rnd x f -> Rnd (- x)%Q (SFopp f).
Proof.
  unfold Rnd. rewrite Qcompare_opp_0.
  destruct (x ?= 0)%Q; cbn [CompOpp].
  - intros [s ->]. now exists (negb s).
  - intros (f' & H & ->). rewrite SFopp_involutive. exact H.
  - intros H. exists f. split; [|reflexivity].
    apply Rpos_ext with (2 := H). ring.
Qed.

Lemma opp_leb (x y : float) :
  (- x <=? - y)%float = true -> (y <=? x)%float = true.
Proof.
  rewrite !leb_ord, !FloatAxioms.opp_spec, !ord_opp.
  intros (Nx & Ny & H).
  repeat split; try lia.
  - now destruct (Prim2SF y).
  - now destruct (Prim2SF x).
Qed.

(** Subtraction goes down when what is subtracted goes up. *)
Lemma sub_antitone (a c1 c2 : float) s m e :
  Prim2SF a = S754_finite s m e ->
  (c1 <=? c2)%float = true -> (a - c2 <=? a - c1)%float = true.
Proof.
  intros Ha H. apply opp_leb. revert c1 c2 H.
  apply monotone_op with (op := fun c => (- (a - c))%float)
                         (g := fun q => (q - B2Q (S754_finite s m e))%Q).
  - intros x y H. lra.
  - intros c N. rewrite FloatAxioms.opp_spec, FloatAxioms.sub_spec, Ha.
    pose proof (Prim2SF_valid c) as Vc. pose proof (valid_as a _ Ha) as Va.
    destruct (Prim2SF c) as [sc|[]| |sc mc ec]; try discriminate;
      cbn [B2E ext_map RndE].
    + cbn [SFsub SFopp].
      apply Rnd_ext with (x := B2Q (S754_finite (negb s) m e)).
      * rewrite !B2Q_finite. cbn [B2Q]. destruct s; cbn [negb]; ring.
      * apply Rnd_exact; [exact Va|]. right. do 3 eexists. reflexivity.
    + reflexivity.
    + reflexivity.
    + apply Rnd_ext with (x := (- (B2Q (S754_finite s m e)
                                   - B2Q (S754_finite sc mc ec)))%Q); [ring|].
      apply Rnd_opp, SFsub_Rnd.
Qed.

(** A positive quotient goes down when the divisor goes up. *)
Lemma div_antitone (n c1 c2 : float) m1 e1 m2 e2 :
  (0 <? n)%float = true ->
  Prim2SF c1 = S754_finite false m1 e1 ->
  Prim2SF c2 = S754_finite false m2 e2 ->
  (c1 <=? c2)%float = true -> (n / c2 <=? n / c1)%float = true.
Proof.
  intros Hn H1 H2 H.
  apply leb_ord in H. destruct H as (N1 & N2 & H).
  pose proof (ord_le_B2E _ _ (Prim2SF_valid c1) (Prim2SF_valid c2) N1 N2 H) as E.
  rewrite H1, H2 in E. cbn [B2E ext_le] in E.
  pose proof (B2Q_pos m1 e1) as P1. pose proof (B2Q_pos m2 e2) as P2.
  cbn [B2Q cond_Zopp] in E.
  apply leb_ord. rewrite !FloatAxioms.div_spec, H1, H2.
  destruct (positive_cases n Hn) as [(mn & en & ->)| ->].
  - pose proof (SFdiv_Rnd false mn en false m1 e1) as R1.
    pose proof (SFdiv_Rnd false mn en false m2 e2) as R2.
    split; [now destruct (Rnd_range _ _ R2)|].
    split; [now destruct (Rnd_range _ _ R1)|].
    apply Rnd_monotone with (2 := R2) (3 := R1).
    pose proof (B2Q_pos mn en) as Pn. cbn [B2Q cond_Zopp].
    set (vn := (inject_Z (Zpos mn) * bpow en)%Q) in *.
    set (v1 := (inject_Z (Zpos m1) * bpow e1)%Q) in *.
    set (v2 := (inject_Z (Zpos m2) * bpow e2)%Q) in *.
    clearbody vn v1 v2.
    apply Qle_shift_div_l; [exact P1|].
    assert (Eq : (vn / v2 * v1 == vn * (v1 / v2))%Q) by (field; lra).
    rewrite Eq.
    assert (0 < v1 / v2 <= 1)%Q.
    { split.
      - apply Qlt_shift_div_l; [exact P2|]. lra.
      - apply Qle_shift_div_r; [exact P2|]. lra. }
    nra.
  - cbn [SFdiv xorb]. repeat split. apply Z.le_refl.
Qed.

Lemma eqb_ord (x y : float) :
  (x =? y)%float = true <->
  is_nan (Prim2SF x) = false /\ is_nan (Prim2SF y) = false /\
  ord (Prim2SF x) = ord (Prim2SF y).
Proof.
  rewrite FloatAxioms.eqb_spec. unfold SFeqb. split.
  - intros H.
    assert (N : is_nan (Prim2SF x) = false /\ is_nan (Prim2SF y) = false).
    { destruct (Prim2SF x) as [| | |? ? ?], (Prim2SF y) as [| | |? ? ?];
        simpl in *; auto; discriminate. }
    destruct N as [Nx Ny]. split; [exact Nx|]. split; [exact Ny|].
    rewrite (SFcompare_ord _ _ (Prim2SF_valid x) (Prim2SF_valid y) Nx Ny) in H.
    destruct (Z.compare_spec (ord (Prim2SF x)) (ord (Prim2SF y)));
      [assumption|discriminate|discriminate].
  - intros (Nx & Ny & H).
    rewrite (SFcompare_ord _ _ (Prim2SF_valid x) (Prim2SF_valid y) Nx Ny), H.
    now rewrite Z.compare_refl.
Qed.

Lemma leb_ltb_trans (x y t : float) :
  (x <=? y)%float = true -> (y <? t)%float = true -> (x <? t)%float = true.
Proof.
  rewrite !ltb_ord, leb_ord. intros (Nx & Ny & H) (_ & Nt & H').
  repeat split; trivial; try lia.
Qed.

Lemma ord_zero : ord (Prim2SF 0) = 0%Z.
Proof. reflexivity. Qed.

Lemma nan_zero : is_nan (Prim2SF 0) = false.
Proof. reflexivity. Qed.

(** Not above zero and not a NaN: at most zero. *)
Lemma not_positive_leb (x : float) :
  is_nan (Prim2SF x) = false -> (0 <? x)%float = false -> (x <=? 0)%float = true.
Proof.
  intros N H. apply leb_ord. rewrite ord_zero. repeat split; trivial.
  destruct (Z.le_gt_cases (ord (Prim2SF x)) 0) as [L|L]; [exact L|].
  assert (T : (0 <? x)%float = true).
  { apply ltb_ord. rewrite ord_zero. repeat split; trivial; try lia. }
  congruence.
Qed.

(** At least zero and not equal to zero: above zero. *)
Lemma nonneg_nonzero_positive (x : float) :
  (0 <=? x)%float = true -> (x =? 0)%float = false -> (0 <? x)%float = true.
Proof.
  intros H E. apply leb_ord in H. destruct H as (N0 & Nx & H).
  apply ltb_ord. repeat split; trivial.
  destruct (Z.eq_dec (ord (Prim2SF x)) (ord (Prim2SF 0))) as [Q|Q]; [|lia].
  assert (T : (x =? 0)%float = true) by (apply eqb_ord; auto).
  congruence.
Qed.

Lemma self_sub (c : float) s m e :
  Prim2SF c = S754_finite s m e -> Prim2SF (c - c) = S754_zero false.
Proof.
  intros Hc. rewrite FloatAxioms.sub_spec, Hc. unfold SF64sub. cbn [SFsub].
  now rewrite Z.sub_diag.
Qed.

(** The percentage of a reference price equal to the cost is zero. *)
Lemma percentage_at_cost (c : float) m e :
  Prim2SF c = S754_finite false m e ->
  Prim2SF ((c - c) / c * 100) = S754_zero false.
Proof.
  intros Hc.
  rewrite FloatAxioms.mul_spec, FloatAxioms.div_spec, (self_sub c _ _ _ Hc), Hc.
  reflexivity.
Qed.

Lemma at_most_zero_not_above (t x z : float) :
  (x <=? z)%float = true -> (t <? z)%float = false -> (t <? x)%float = false.
Proof.
  intros H Hz. destruct (t <? x)%float eqn:E; [|reflexivity].
  rewrite (ltb_leb_trans _ _ _ E H) in Hz. discriminate.
Qed.

Lemma at_least_zero_not_below (t x z : float) :
  (z <=? x)%float = true -> (z <? t)%float = false -> (x <? t)%float = false.
Proof.
  intros H Hz. destruct (x <? t)%float eqn:E; [|reflexivity].
  rewrite (leb_ltb_trans _ _ _ H E) in Hz. discriminate.
Qed.

Lemma ltb_of_zero (z t : float) (b : bool) :
  Prim2SF z = S754_zero false ->
  SFltb (Prim2SF t) (S754_zero false) = b -> (t <? z)%float = b.
Proof. intros Hz <-. now rewrite FloatAxioms.ltb_spec, Hz. Qed.

Lemma zero_ltb (z t : float) (b : bool) :
  Prim2SF z = S754_zero false ->
  SFltb (S754_zero false) (Prim2SF t) = b -> (z <? t)%float = b.
Proof. intros Hz <-. now rewrite FloatAxioms.ltb_spec, Hz. Qed.

(** A percentage that is at most the one at cost gives the band Low. *)
Lemma low_below_cost (p z : float) :
  Prim2SF z = S754_zero false -> (p <=? z)%float = true -> state_msg p = Low.
Proof.
  intros Hz H. unfold state_msg.
  rewrite (at_most_zero_not_above 30 p z H) by now apply ltb_of_zero.
  now rewrite (at_most_zero_not_above 20 p z H) by now apply ltb_of_zero.
Qed.

(** X1: a reference price at or below a positive cost never shows a
    positive difference or percentage and gives the band Low; one at or
    above the cost never shows a negative difference or percentage. *)
Theorem premium_sign (ctf cost : float) :
  (0 <? cost)%float = true ->
  exists p,
    premium ctf cost = Ok p /\
    ((ctf <=? cost)%float = true ->
       (0 <? price_diff p)%float = false /\
       (0 <? premium_rate p)%float = false /\
       state_msg (premium_rate p) = Low) /\
    ((cost <=? ctf)%float = true ->
       (price_diff p <? 0)%float = false /\
       (premium_rate p <? 0)%float = false).
Proof.
  intros Hc. rewrite premium_eq, (positive_nonzero cost Hc).
  eexists. split; [reflexivity|]. cbn [price_diff premium_rate].
  destruct (positive_cases cost Hc) as [(m & e & Fc)|Ic].
  - pose proof (self_sub cost _ _ _ Fc) as Z1.
    pose proof (percentage_at_cost cost _ _ Fc) as Z2.
    split; intros H.
    + pose proof (sub_monotone _ _ cost _ _ _ Fc H) as D.
      pose proof (percentage_monotone cost _ _ _ _ Fc H) as P.
      repeat split.
      * apply at_most_zero_not_above with (1 := D). now apply ltb_of_zero.
      * apply at_most_zero_not_above with (1 := P). now apply ltb_of_zero.
      * now apply low_below_cost with (2 := P).
    + pose proof (sub_monotone _ _ cost _ _ _ Fc H) as D.
      pose proof (percentage_monotone cost _ _ _ _ Fc H) as P.
      split.
      * apply at_least_zero_not_below with (1 := D). now apply zero_ltb.
      * apply at_least_zero_not_below with (1 := P). now apply zero_ltb.
  - assert (N : forall r, Prim2SF ((r - cost) / cost * 100) = S754_nan).
    { intros r.
      rewrite FloatAxioms.mul_spec, FloatAxioms.div_spec, FloatAxioms.sub_spec, Ic.
      now destruct (Prim2SF r) as [[]|[]| |[] ? ?]. }
    split; intros H.
    + repeat split.
      * rewrite FloatAxioms.ltb_spec, FloatAxioms.sub_spec, Ic.
        now destruct (Prim2SF ctf) as [[]|[]| |[] ? ?].
      * now rewrite FloatAxioms.ltb_spec, N.
      * apply infinite_cost_low with (1 := Ic).
    + apply leb_ord in H. destruct H as (_ & Nc & H). rewrite Ic in H.
      pose proof (Prim2SF_valid ctf) as V.
      split.
      * rewrite FloatAxioms.ltb_spec, FloatAxioms.sub_spec, Ic.
        destruct (Prim2SF ctf) as [[]|[]| |[] mc ec] eqn:Ec; try reflexivity;
          try discriminate; exfalso;
          try (destruct (valid_finite _ _ _ V) as (? & ? & ? & _));
          cbn [ord cond_Zopp] in H; unfold top in H; lia.
      * now rewrite FloatAxioms.ltb_spec, N.
Qed.

Lemma premium_sign_witness :
  exists p,
    premium 500 467.90850868873281 = Ok p /\
    ((500 <=? 467.90850868873281)%float = true ->
       (0 <? price_diff p)%float = false /\
       (0 <? premium_rate p)%float = false /\
       state_msg (premium_rate p) = Low) /\
    ((467.90850868873281 <=? 500)%float = true ->
       (price_diff p <? 0)%float = false /\
       (premium_rate p <? 0)%float = false).
Proof. exact (premium_sign 500 467.90850868873281 eq_refl). Defined.

(** The converted cost of a positive price at a positive rate is at
    least zero. *)
Lemma cost_at_least_zero (xau_price exchange_rate : float) :
  (0 <? xau_price)%float = true ->
  (0 <? exchange_rate)%float = true ->
  (0 <=? xau_price * exchange_rate / GRAMS_PER_OUNCE)%float = true.
Proof.
  intros Hx Hr.
  destruct (positive_cases exchange_rate Hr) as [(m & e & Fr)|Ir].
  - apply leb_trans with (0 * exchange_rate / GRAMS_PER_OUNCE)%float.
    + rewrite FloatAxioms.leb_spec, FloatAxioms.div_spec, FloatAxioms.mul_spec.
      rewrite Fr, grams_finite. reflexivity.
    + apply div_monotone with (1 := grams_finite).
      apply mul_monotone with (1 := Fr). now apply ltb_leb.
  - now rewrite FloatAxioms.leb_spec, (infinite_rate_cost _ _ Hx Ir).
Qed.

(** The converted cost goes up with the price. *)
Lemma cost_monotone (x1 x2 rate : float) m e :
  Prim2SF rate = S754_finite false m e ->
  (x1 <=? x2)%float = true ->
  (x1 * rate / GRAMS_PER_OUNCE <=? x2 * rate / GRAMS_PER_OUNCE)%float = true.
Proof.
  intros Fr H. apply div_monotone with (1 := grams_finite).
  now apply mul_monotone with (1 := Fr).
Qed.

(** The converted cost is above zero from a price and a rate of 1 on. *)
Lemma cost_above_zero (xau_price exchange_rate : float) :
  (1 <=? xau_price)%float = true ->
  (1 <=? exchange_rate)%float = true ->
  (0 <? xau_price * exchange_rate / GRAMS_PER_OUNCE)%float = true.
Proof.
  intros H1 H2.
  assert (Hx : (0 <? xau_price)%float = true)
    by (apply ltb_leb_trans with (2 := H1); reflexivity).
  assert (Hr : (0 <? exchange_rate)%float = true)
    by (apply ltb_leb_trans with (2 := H2); reflexivity).
  destruct (positive_cases exchange_rate Hr) as [(m & e & Fr)|Ir].
  - apply ltb_leb_trans with (1 * 1 / GRAMS_PER_OUNCE)%float; [reflexivity|].
    apply leb_trans with (1 * exchange_rate / GRAMS_PER_OUNCE)%float.
    + rewrite (mul_comm 1 exchange_rate).
      apply cost_monotone with (m := 4503599627370496%positive) (e := (-52)%Z);
        [reflexivity|exact H2].
    + now apply cost_monotone with (1 := Fr).
  - now rewrite FloatAxioms.ltb_spec, (infinite_rate_cost _ _ Hx Ir).
Qed.

(** The reference prices the number input lets through (lines 76-83)
    are finite and positive. *)
Lemma input_range_finite (ctf : float) :
  (500 <=? ctf)%float = true -> (ctf <=? 1000)%float = true ->
  exists m e, Prim2SF ctf = S754_finite false m e.
Proof.
  intros L U.
  assert (P : (0 <? ctf)%float = true)
    by (apply ltb_leb_trans with (2 := L); reflexivity).
  destruct (positive_cases ctf P) as [F|I]; [exact F|].
  rewrite FloatAxioms.leb_spec, I in U. discriminate.
Qed.

(** For a finite reference price, the band does not go up when the cost
    goes up. *)
Lemma band_antitone_in_cost (ctf c1 c2 : float) m e :
  Prim2SF ctf = S754_finite false m e ->
  (0 <? c1)%float = true ->
  (c1 <=? c2)%float = true ->
  band_le (state_msg ((ctf - c2) / c2 * 100)%float)
          (state_msg ((ctf - c1) / c1 * 100)%float).
Proof.
  intros Fc P1 H.
  assert (P2 : (0 <? c2)%float = true) by exact (ltb_leb_trans _ _ _ P1 H).
  destruct (positive_cases c2 P2) as [(m2 & e2 & F2)|I2].
  2:{ rewrite (infinite_cost_low c2 ctf I2). unfold band_le. simpl. lia. }
  destruct (positive_cases c1 P1) as [(m1 & e1 & F1)|I1].
  2:{ rewrite FloatAxioms.leb_spec, I1, F2 in H. discriminate. }
  pose proof (sub_antitone ctf c1 c2 _ _ _ Fc H) as D.
  destruct (0 <? ctf - c2)%float eqn:S2.
  - apply state_msg_monotone.
    apply mul_monotone with (m := 7036874417766400%positive) (e := (-46)%Z);
      [reflexivity|].
    apply leb_trans with ((ctf - c2) / c1)%float.
    + exact (div_antitone _ c1 c2 _ _ _ _ S2 F1 F2 H).
    + now apply div_monotone with (1 := F1).
  - assert (N : is_nan (Prim2SF (ctf - c2)) = false)
      by (apply leb_ord in D; tauto).
    pose proof (not_positive_leb _ N S2) as Z.
    assert (L : state_msg ((ctf - c2) / c2 * 100)%float = Low).
    { apply low_below_cost with (z := (0 / c2 * 100)%float).
      - rewrite FloatAxioms.mul_spec, FloatAxioms.div_spec, F2. reflexivity.
      - apply mul_monotone with (m := 7036874417766400%positive) (e := (-46)%Z);
          [reflexivity|].
        now apply div_monotone with (1 := F2). }
    rewrite L. unfold band_le. simpl. lia.
Qed.

Lemma render_dashboard (xau_price exchange_rate ctf : float)
  (r : PremiumResult) (b : band) :
  render xau_price exchange_rate ctf = Ok (Dashboard r b) ->
  let cost := (xau_price * exchange_rate / GRAMS_PER_OUNCE)%float in
  (0 <? xau_price)%float = true /\ (cost =? 0)%float = false /\
  intl_gold_cny_g r = cost /\
  b = state_msg ((ctf - cost) / cost * 100)%float.
Proof.
  intros H cost. rewrite render_eq, premium_eq in H. fold cost in H.
  destruct (0 <? xau_price)%float; [|discriminate].
  destruct (cost =? 0)%float; cbn in H; [discriminate|].
  injection H as <- <-. auto.
Qed.

(** X2: with the reference price in the range of the number input and a
    positive rate, a higher gold quote never gives a higher band. *)
Theorem dearer_gold_never_raises_band (xau1 xau2 exchange_rate ctf : float)
  (r1 r2 : PremiumResult) (b1 b2 : band) :
  (500 <=? ctf)%float = true -> (ctf <=? 1000)%float = true ->
  (0 <? exchange_rate)%float = true ->
  (xau1 <=? xau2)%float = true ->
  render xau1 exchange_rate ctf = Ok (Dashboard r1 b1) ->
  render xau2 exchange_rate ctf = Ok (Dashboard r2 b2) ->
  band_le b2 b1.
Proof.
  intros L U Hr H R1 R2.
  destruct (input_range_finite ctf L U) as (m & e & Fc).
  destruct (render_dashboard _ _ _ _ _ R1) as (X1 & N1 & _ & ->).
  destruct (render_dashboard _ _ _ _ _ R2) as (X2 & N2 & _ & ->).
  destruct (positive_cases exchange_rate Hr) as [(mr & er & Fr)|Ir].
  - apply band_antitone_in_cost with (1 := Fc).
    + apply nonneg_nonzero_positive; [|exact N1]. now apply cost_at_least_zero.
    + now apply cost_monotone with (1 := Fr).
  - rewrite (infinite_cost_low _ ctf (infinite_rate_cost _ _ X2 Ir)).
    unfold band_le. simpl. lia.
Qed.

Lemma dearer_gold_never_raises_band_witness : band_le Moderate High.
Proof.
  exact (dearer_gold_never_raises_band 2034.50 2600 7 736
           {| intl_gold_cny_g := 457.87451572974101;
              price_diff := 278.12548427025899;
              premium_rate := 60.742730751676447 |}
           {| intl_gold_cny_g := 585.14315109232075;
              price_diff := 150.85684890767925;
              premium_rate := 25.781186813186824 |}
           High Moderate eq_refl eq_refl eq_refl eq_refl eq_refl eq_refl).
Defined.

(** What the fetcher returns when both fields parse. *)
Lemma parses_fetch (float_of_str : string -> option float)
  (net : http_result) (x r : float) :
  parses float_of_str net x r ->
  get_realtime_data float_of_str net = ((x, r), []).
Proof.
  intros (text & xl & xf & rl & rf & -> & E1 & E2 & E3 & E4 & E5 & E6).
  unfold get_realtime_data, fetch_body, py_float, index, group1, requests_get.
  cbn [bind]. rewrite E1. cbn [bind]. rewrite E2. cbn [bind]. rewrite E3.
  cbn [bind]. rewrite E4. cbn [bind]. rewrite E5. cbn [bind]. rewrite E6.
  reflexivity.
Qed.

(** X3: when the response parses to a price and a rate that are both at
    least 1, the run raises nothing and shows no error: it ends with a
    dashboard, whose converted cost is above zero. *)
Theorem ordinary_quote_renders (float_of_str : string -> option float)
  (net : http_result) (ctf x r : float) :
  parses float_of_str net x r ->
  (1 <=? x)%float = true -> (1 <=? r)%float = true ->
  exists res b,
    script float_of_str net ctf = ([], Ok (Dashboard res b)) /\
    (0 <? intl_gold_cny_g res)%float = true.
Proof.
  intros P Hx Hr. pose proof (cost_above_zero x r Hx Hr) as C.
  unfold script. rewrite (parses_fetch _ _ _ _ P), render_eq, premium_eq.
  replace (0 <? x)%float with true
    by (symmetry; apply ltb_leb_trans with (2 := Hx); reflexivity).
  rewrite (positive_nonzero _ C). cbn [bind].
  eexists. eexists. split; [reflexivity|exact C].
Qed.

Lemma sample_parses :
  parses decimal_float (Response sample_text) 2034.5 7.1534.
Proof.
  exists sample_text. do 4 eexists.
  repeat split; try (vm_compute; reflexivity).
Qed.

Lemma ordinary_quote_renders_witness :
  exists res b,
    script decimal_float (Response sample_text) 736
    = ([], Ok (Dashboard res b)) /\
    (0 <? intl_gold_cny_g res)%float = true.
Proof.
  exact (ordinary_quote_renders decimal_float (Response sample_text) 736
           2034.5 7.1534 sample_parses eq_refl eq_refl).
Defined.

(** X4: when the response parses to a finite positive price and a rate
    equal to zero, the converted cost is zero and the run ends with a
    ZeroDivisionError that nothing catches; no error message is shown
    before it. *)
Theorem zero_rate_raises (float_of_str : string -> option float)
  (net : http_result) (ctf x r : float) :
  parses float_of_str net x r ->
  (0 <? x)%float = true -> (x <? infinity)%float = true ->
  (r =? 0)%float = true ->
  script float_of_str net ctf = ([], Raise ZeroDivisionError).
Proof.
  intros P Hx Fx Hr.
  unfold script. rewrite (parses_fetch _ _ _ _ P), render_eq, premium_eq, Hx.
  assert (C : (x * r / GRAMS_PER_OUNCE =? 0)%float = true).
  { rewrite FloatAxioms.eqb_spec, FloatAxioms.div_spec, FloatAxioms.mul_spec.
    rewrite grams_finite.
    rewrite FloatAxioms.eqb_spec in Hr. rewrite FloatAxioms.ltb_spec in Fx.
    destruct (positive_cases x Hx) as [(m & e & Ex)|Ex]; rewrite Ex in *;
      [|discriminate].
    change (Prim2SF 0) with (S754_zero false) in *.
    destruct (Prim2SF r) as [[]|[]| |[] ? ?]; try discriminate; reflexivity. }
  rewrite C. reflexivity.
Qed.

Lemma zero_rate_parses :
  parses decimal_float (Response sample_text_zero_rate) 2034.5 0.
Proof.
  exists sample_text_zero_rate. do 4 eexists.
  repeat split; try (vm_compute; reflexivity).
Qed.

Lemma zero_rate_raises_witness :
  script decimal_float (Response sample_text_zero_rate) 736
  = ([], Raise ZeroDivisionError).
Proof.
  exact (zero_rate_raises decimal_float (Response sample_text_zero_rate) 736
           2034.5 0 zero_rate_parses eq_refl eq_refl eq_refl).
Defined.

(** ** The cache over a session *)

(** X5: while the entry is fresh, any number of fetches, in any order of
    clock readings before its expiry, issue no network call, return the
    stored value each time and leave the cache as it is. *)
Theorem fetches_within_window (float_of_str : string -> option float)
  (e : entry) (requests : list (Z * http_result)) :
  Forall (fun q => (fst q < stored_at e + ttl)%Z) requests ->
  fetch_all float_of_str (Some e) requests
  = (Some e, map (fun _ => stored e) requests, 0%nat).
Proof.
  induction 1 as [|[now net] rest H _ IH]; [reflexivity|].
  cbn [fetch_all cached_get_realtime_data]. unfold fresh.
  cbn [fst] in H. apply Z.ltb_lt in H. rewrite H, IH. reflexivity.
Qed.

Lemma fetches_within_window_witness :
  let e := {| stored_at := 0; stored := ((2034.5%float, 7.1534%float), []) |} in
  fetch_all decimal_float (Some e) [(10%Z, RequestFailed); (29%Z, RequestFailed)]
  = (Some e, map (fun _ => stored e) [(10%Z, RequestFailed); (29%Z, RequestFailed)],
     0%nat).
Proof.
  apply (fetches_within_window decimal_float
           {| stored_at := 0; stored := ((2034.5%float, 7.1534%float), []) |}).
  repeat constructor.
Defined.

(** X6: a failure is cached like a quote: after a refresh whose fetch
    failed at [t1], a fetch at [t2 < t1 + 30] asks the network nothing
    and gives the pair (0, 0) with the same error again, whatever the
    network would answer by then. *)
Theorem failure_is_cached (float_of_str : string -> option float)
  (c : cache) (t1 t2 : Z) (net1 net2 : http_result) :
  fetch_failure float_of_str net1 ->
  (t2 < t1 + ttl)%Z ->
  let c1 := fst (fst (refresh_and_fetch float_of_str c true t1 net1)) in
  exists e,
    refresh_and_fetch float_of_str c1 false t2 net2
    = (c1, ((0%float, 0%float), [FetchFailed e]), 0%nat).
Proof.
  intros F H. destruct (fetch_failure_raises _ _ F) as [e He].
  exists e. unfold refresh_and_fetch, clear, cached_get_realtime_data, fresh.
  cbn [fst stored_at stored]. apply Z.ltb_lt in H. rewrite H.
  unfold get_realtime_data. now rewrite He.
Qed.

Lemma failure_is_cached_witness :
  let c1 := fst (fst (refresh_and_fetch decimal_float None true 0 RequestFailed)) in
  exists e,
    refresh_and_fetch decimal_float c1 false 29 (Response sample_text)
    = (c1, ((0%float, 0%float), [FetchFailed e]), 0%nat).
Proof.
  apply (failure_is_cached decimal_float None 0 29 RequestFailed
           (Response sample_text)).
  - apply request_failed.
  - reflexivity.
Defined.

Lemma reachable_stored (float_of_str : string -> option float) (c : cache) :
  reachable float_of_str c ->
  forall e, c = Some e ->
  exists net, stored e = get_realtime_data float_of_str net.
Proof.
  induction 1 as [|c clicked now net R IH]; intros e; [discriminate|].
  unfold refresh_and_fetch, cached_get_realtime_data, clear.
  destruct clicked; cbn [fst].
  - intros [= <-]. now exists net.
  - destruct c as [e0|]; cbn [fst].
    + destruct (fresh now e0); cbn [fst].
      * intros [= <-]. now apply IH.
      * intros [= <-]. now exists net.
    + intros [= <-]. now exists net.
Qed.

(** X7: in any cache a session can reach, what a fetch returns, from the
    cache or from the network, is what [get_realtime_data] gave for some
    network answer: both parsed numbers with nothing shown, or the pair
    (0, 0) with one error message. *)
Theorem cached_fetch_all_or_nothing (float_of_str : string -> option float)
  (c : cache) (clicked : bool) (now : Z) (net : http_result) :
  reachable float_of_str c ->
  let v := snd (fst (refresh_and_fetch float_of_str c clicked now net)) in
  (exists net', v = get_realtime_data float_of_str net') /\
  ((exists x r, v = ((x, r), [])) \/
   (exists e, v = ((0%float, 0%float), [FetchFailed e]))).
Proof.
  intros R v.
  assert (E : exists net', v = get_realtime_data float_of_str net').
  { unfold v, refresh_and_fetch, cached_get_realtime_data, clear.
    destruct clicked; cbn [fst snd]; [now exists net|].
    destruct c as [e0|]; cbn [fst snd]; [|now exists net].
    destruct (fresh now e0); cbn [fst snd]; [|now exists net].
    exact (reachable_stored _ _ R e0 eq_refl). }
  split; [exact E|]. destruct E as [net' ->].
  unfold get_realtime_data. destruct (fetch_body float_of_str net') as [[x r]|e].
  - left. now exists x, r.
  - right. now exists e.
Qed.

Lemma cached_fetch_all_or_nothing_witness :
  let v := snd (fst (refresh_and_fetch decimal_float None false 0
                       (Response sample_text))) in
  (exists net', v = get_realtime_data decimal_float net') /\
  ((exists x r, v = ((x, r), [])) \/
   (exists e, v = ((0%float, 0%float), [FetchFailed e]))).
Proof.
  exact (cached_fetch_all_or_nothing decimal_float None false 0
           (Response sample_text) (reachable_start decimal_float)).
Defined.

(** ** The text of the response *)

Open Scope string_scope.

(** ** Splitting *)

Lemma split_nonempty sep s : split sep s <> [].
Proof.
  destruct s as [|c s]; simpl; [discriminate|].
  destruct (Ascii.eqb c sep); [discriminate|].
  destruct (split sep s); discriminate.
Qed.

Lemma join_cons sep w ws :
  ws <> [] -> join sep (w :: ws) = w ++ String sep (join sep ws).
Proof. destruct ws; [congruence|reflexivity]. Qed.

Lemma join_head sep c w ws :
  join sep (String c w :: ws) = String c (join sep (w :: ws)).
Proof. now destruct ws. Qed.

Lemma join_split sep s : join sep (split sep s) = s.
Proof.
  induction s as [|c s IH]; [reflexivity|]. simpl split.
  destruct (Ascii.eqb_spec c sep) as [->|N].
  - rewrite join_cons by apply split_nonempty. now rewrite IH.
  - pose proof (split_nonempty sep s) as NE.
    destruct (split sep s) as [|w ws]; [congruence|].
    rewrite join_head. now rewrite IH.
Qed.

Lemma split_parts_clean sep s :
  Forall (fun w => contains sep w = false) (split sep s).
Proof.
  induction s as [|c s IH]; simpl.
  - now constructor.
  - destruct (Ascii.eqb_spec c sep) as [->|N].
    + now constructor.
    + destruct (split sep s) as [|w ws]; [repeat constructor|].
      * simpl. destruct (Ascii.eqb_spec c sep); [contradiction|reflexivity].
      * inversion IH as [|? ? Hw Hws]; subst. constructor; [|exact Hws].
        simpl. rewrite Hw.
        destruct (Ascii.eqb_spec c sep); [contradiction|reflexivity].
Qed.

Lemma split_clean sep w : contains sep w = false -> split sep w = [w].
Proof.
  induction w as [|c w IH]; simpl; [reflexivity|].
  destruct (Ascii.eqb c sep); simpl; [discriminate|].
  intros H. now rewrite (IH H).
Qed.

Lemma split_app_sep sep w s :
  contains sep w = false ->
  split sep (w ++ String sep s) = w :: split sep s.
Proof.
  induction w as [|c w IH]; simpl.
  - now rewrite Ascii.eqb_refl.
  - destruct (Ascii.eqb c sep); simpl; [discriminate|].
    intros H. now rewrite (IH H).
Qed.

Lemma split_join sep parts :
  parts <> [] ->
  Forall (fun w => contains sep w = false) parts ->
  split sep (join sep parts) = parts.
Proof.
  induction parts as [|w ws IH]; [congruence|]. intros _ H.
  inversion H as [|? ? Hw Hws]; subst.
  destruct ws as [|w' ws'].
  - simpl. now apply split_clean.
  - rewrite join_cons by discriminate.
    rewrite split_app_sep by exact Hw.
    f_equal. apply IH; [discriminate|exact Hws].
Qed.

(** [split] and [join] are inverse to each other: the fields of a
    line are never none, hold no separator, and joined by the separator
    give the line back; a non-empty list of separator-free fields is what
    its joined line splits into. *)
Lemma split_join_inverse (sep : ascii) (s : string) (parts : list string) :
  split sep s <> [] /\
  Forall (fun w => contains sep w = false) (split sep s) /\
  join sep (split sep s) = s /\
  (parts <> [] -> Forall (fun w => contains sep w = false) parts ->
   split sep (join sep parts) = parts).
Proof.
  split; [apply split_nonempty|]. split; [apply split_parts_clean|].
  split; [apply join_split|apply split_join].
Qed.

(** ** Searching *)

Lemma strip_prefix_app p s : strip_prefix p (p ++ s) = Some s.
Proof. induction p as [|a p IH]; simpl; [reflexivity|]. now rewrite Ascii.eqb_refl. Qed.

Lemma strip_prefix_sound p s r : strip_prefix p s = Some r -> s = p ++ r.
Proof.
  revert s. induction p as [|a p IH]; intros s; simpl.
  - now intros [= ->].
  - destruct s as [|b s]; [discriminate|].
    destruct (Ascii.eqb_spec a b) as [->|]; [|discriminate].
    intros H. now rewrite (IH _ H).
Qed.

Lemma app_assoc_s (a b c : string) : (a ++ b) ++ c = a ++ b ++ c.
Proof. induction a as [|x a IH]; simpl; [reflexivity|]. now rewrite IH. Qed.

(** The lazy group is the shortest newline-free run before [closing]. *)
Lemma lazy_group_sound closing s g :
  lazy_group closing s = Some g ->
  exists post,
    s = g ++ closing ++ post /\ contains newline g = false /\
    (forall g1 g2, g = g1 ++ g2 -> g2 <> EmptyString ->
       strip_prefix closing (g2 ++ closing ++ post) = None).
Proof.
  revert g. induction s as [|c s IH]; intros g; simpl.
  - destruct (strip_prefix closing "") as [r|] eqn:E; [|discriminate].
    intros [= <-]. exists r. split; [exact (strip_prefix_sound _ _ _ E)|].
    split; [reflexivity|]. intros g1 g2 H Hne; destruct g1; simpl in H; [subst g2; congruence|discriminate].
  - destruct (strip_prefix closing (String c s)) as [r|] eqn:E.
    + intros [= <-]. exists r. split; [exact (strip_prefix_sound _ _ _ E)|].
      split; [reflexivity|]. intros g1 g2 H Hne; destruct g1; simpl in H; [subst g2; congruence|discriminate].
    + destruct (Ascii.eqb_spec c newline) as [->|N]; [discriminate|].
      destruct (lazy_group closing s) as [g'|] eqn:L; [|discriminate].
      intros [= <-]. destruct (IH g' eq_refl) as (post & -> & C & M).
      exists post. split; [reflexivity|]. split.
      * simpl. rewrite C.
        destruct (Ascii.eqb_spec c newline); [contradiction|reflexivity].
      * intros [|x g1] g2 H Hne; simpl in H.
        -- subst g2. exact E.
        -- injection H as _ H. now apply (M g1 g2).
Qed.

Lemma lazy_group_complete closing g post :
  contains newline g = false ->
  lazy_group closing (g ++ closing ++ post) <> None.
Proof.
  induction g as [|c g IH]; intros H.
  - simpl app. destruct (closing ++ post) eqn:E; simpl;
      rewrite <- E, strip_prefix_app; discriminate.
  - simpl in H. apply orb_false_elim in H. destruct H as [Hc Hg].
    simpl. destruct (strip_prefix closing (String c (g ++ closing ++ post)));
      [discriminate|].
    rewrite Hc. specialize (IH Hg).
    destruct (lazy_group closing (g ++ closing ++ post)); [discriminate|congruence].
Qed.

Lemma re_search_sound opening closing text g :
  re_search opening closing text = Some g ->
  exists pre post,
    text = pre ++ opening ++ g ++ closing ++ post /\
    contains newline g = false /\
    (forall g1 g2, g = g1 ++ g2 -> g2 <> EmptyString ->
       strip_prefix closing (g2 ++ closing ++ post) = None).
Proof.
  induction text as [|c text IH]; simpl.
  - destruct (strip_prefix opening "") as [rest|] eqn:E.
    + destruct (lazy_group closing rest) as [g'|] eqn:L; [|discriminate].
      intros [= <-]. destruct (lazy_group_sound _ _ _ L) as (post & -> & C & M).
      exists "", post. split; [exact (strip_prefix_sound _ _ _ E)|]. now split.
    + discriminate.
  - set (here := match strip_prefix opening (String c text) with
                 | Some rest => lazy_group closing rest
                 | None => None
                 end).
    destruct here as [g'|] eqn:H.
    + intros [= <-]. unfold here in H.
      destruct (strip_prefix opening (String c text)) as [rest|] eqn:E;
        [|discriminate].
      destruct (lazy_group_sound _ _ _ H) as (post & -> & C & M).
      exists "", post. split; [exact (strip_prefix_sound _ _ _ E)|]. now split.
    + intros R. destruct (IH R) as (pre & post & -> & C & M).
      exists (String c pre), post. now split.
Qed.

Lemma re_search_complete opening closing pre g post :
  contains newline g = false ->
  re_search opening closing (pre ++ opening ++ g ++ closing ++ post) <> None.
Proof.
  intros C.
  assert (Here : forall t, t = opening ++ g ++ closing ++ post ->
            match strip_prefix opening t with
            | Some rest => lazy_group closing rest
            | None => None
            end <> None).
  { intros t ->. rewrite strip_prefix_app. now apply lazy_group_complete. }
  induction pre as [|c pre IH].
  - simpl app. specialize (Here _ eq_refl).
    destruct (opening ++ g ++ closing ++ post) as [|c t]; simpl;
      destruct (match strip_prefix opening _ with Some _ => _ | None => _ end);
      congruence.
  - simpl.
    destruct (match strip_prefix opening _ with Some _ => _ | None => _ end);
      [discriminate|exact IH].
Qed.

(** X8: what [re.search] finds and when: a group that is found stands in
    the text between the two literals, holds no newline, and is the
    shortest such run; and whenever the text holds the two literals around
    a newline-free run, something is found. *)
Theorem re_search_spec (opening closing text : string) :
  (forall g, re_search opening closing text = Some g ->
     exists pre post,
       text = pre ++ opening ++ g ++ closing ++ post /\
       contains newline g = false /\
       (forall g1 g2, g = g1 ++ g2 -> g2 <> EmptyString ->
          strip_prefix closing (g2 ++ closing ++ post) = None)) /\
  (forall pre g post,
     text = pre ++ opening ++ g ++ closing ++ post ->
     contains newline g = false ->
     re_search opening closing text <> None).
Proof.
  split.
  - intros g. apply re_search_sound.
  - intros pre g post -> C. now apply re_search_complete.
Qed.

Lemma field_char_plain c :
  field_char c = true ->
  Ascii.eqb c dquote = false /\ Ascii.eqb c newline = false /\
  Ascii.eqb "h"%char c = false /\ Ascii.eqb dquote c = false.
Proof.
  destruct c as [[] [] [] [] [] [] [] []]; vm_compute; intros H;
    try discriminate; auto.
Qed.

Lemma lazy_group_eq cl s :
  lazy_group cl s =
  match strip_prefix cl s with
  | Some _ => Some EmptyString
  | None =>
      match s with
      | EmptyString => None
      | String c s' =>
          if Ascii.eqb c newline then None
          else option_map (String c) (lazy_group cl s')
      end
  end.
Proof. now destruct s. Qed.

Lemma lazy_group_found cl g post :
  all_chars field_char g = true ->
  lazy_group (String dquote cl) (g ++ String dquote (cl ++ post)) = Some g.
Proof.
  induction g as [|c g IH]; intros H; rewrite lazy_group_eq.
  - cbn [append strip_prefix]. now rewrite Ascii.eqb_refl, strip_prefix_app.
  - simpl in H. apply andb_prop in H. destruct H as [Hc Hg].
    destruct (field_char_plain c Hc) as (_ & N & _ & Q).
    cbn [append strip_prefix]. rewrite Q, N. now rewrite (IH Hg).
Qed.

(** A search whose opening starts with [h] passes over the fields. *)
Lemma re_search_skip_fields o cl g t :
  all_chars field_char g = true ->
  re_search (String "h" o) cl (g ++ t) = re_search (String "h" o) cl t.
Proof.
  induction g as [|c g IH]; intros H; [reflexivity|].
  simpl in H. apply andb_prop in H. destruct H as [Hc Hg].
  destruct (field_char_plain c Hc) as (_ & _ & N & _).
  cbn [append re_search strip_prefix]. rewrite N. now apply IH.
Qed.

Lemma re_search_eq o cl text :
  re_search o cl text =
  match match strip_prefix o text with
        | Some rest => lazy_group cl rest
        | None => None
        end with
  | Some g => Some g
  | None =>
      match text with
      | EmptyString => None
      | String _ text' => re_search o cl text'
      end
  end.
Proof. now destruct text. Qed.

Lemma re_search_here o cl g post :
  all_chars field_char g = true ->
  re_search o (String dquote cl) (o ++ g ++ String dquote (cl ++ post)) = Some g.
Proof.
  intros H. rewrite re_search_eq, strip_prefix_app.
  now rewrite lazy_group_found.
Qed.

Lemma re_search_next o cl c t :
  strip_prefix o (String c t) = None ->
  re_search o cl (String c t) = re_search o cl t.
Proof. intros H. now rewrite re_search_eq, H. Qed.

Lemma sample_xau_line xs rest :
  all_chars field_char xs = true ->
  re_search opening_xau closing (sample_line "hf_XAU" xs ++ rest) = Some xs.
Proof.
  intros H. unfold sample_line. rewrite !app_assoc_s.
  change ("var hq_str_" ++ "hf_XAU" ++ "=" ++ String dquote xs
          ++ String dquote (String ";" (String newline "")) ++ rest)
    with ("var " ++ opening_xau ++ xs ++ String dquote ";"
          ++ String newline rest).
  cbn [append]. do 4 (rewrite re_search_next by reflexivity).
  exact (re_search_here opening_xau ";" xs (String newline rest) H).
Qed.

Lemma sample_rate_line xs rs rest :
  all_chars field_char xs = true ->
  all_chars field_char rs = true ->
  re_search opening_rate closing
    (sample_line "hf_XAU" xs ++ sample_line "fx_susdcny" rs ++ rest) = Some rs.
Proof.
  intros Hx Hr. unfold sample_line. rewrite !app_assoc_s.
  change ("var hq_str_" ++ "hf_XAU" ++ "=" ++ String dquote xs
          ++ String dquote (String ";" (String newline ""))
          ++ "var hq_str_" ++ "fx_susdcny" ++ "=" ++ String dquote rs
          ++ String dquote (String ";" (String newline "")) ++ rest)
    with (("var hq_str_hf_XAU=" ++ String dquote "")
          ++ xs ++ (String dquote (String ";" (String newline "var ")))
          ++ opening_rate ++ rs ++ String dquote ";" ++ String newline rest).
  cbn [append]. do 19 (rewrite re_search_next by reflexivity).
  unfold opening_rate at 1. cbn [append].
  rewrite re_search_skip_fields by exact Hx.
  do 7 (rewrite re_search_next by reflexivity).
  change (String "h" (String "q" (String "_" (String "s" (String "t" (String "r"
           (String "_" (String "f" (String "x" (String "_" (String "s" (String "u"
           (String "s" (String "d" (String "c" (String "n" (String "y" (String "="
           (String dquote ""))))))))))))))))))) with opening_rate.
  exact (re_search_here opening_rate ";" rs (String newline rest) Hr).
Qed.

Lemma append_empty (s : string) : s ++ "" = s.
Proof. induction s as [|c s IH]; simpl; [reflexivity|]. now rewrite IH. Qed.

(** X9: on a response of the endpoint's shape, whatever its fields hold,
    the two searches pick the quoted text of the commodity line and of the
    currency line: the fetcher reads field 0 of the first and field 1 of
    the second, and fails only on those. *)
Theorem fetch_endpoint_shape (float_of_str : string -> option float)
  (xs rs : string) :
  all_chars field_char xs = true ->
  all_chars field_char rs = true ->
  fetch_body float_of_str
    (Response (sample_line "hf_XAU" xs ++ sample_line "fx_susdcny" rs)) =
  (xau_first <- index (split comma xs) 0 ;;
   xau_price <- py_float float_of_str xau_first ;;
   rate_second <- index (split comma rs) 1 ;;
   usd_cny_rate <- py_float float_of_str rate_second ;;
   Ok (xau_price, usd_cny_rate)).
Proof.
  intros Hx Hr. unfold fetch_body, requests_get. cbn [bind].
  rewrite (sample_xau_line xs _ Hx).
  rewrite <- (append_empty (sample_line "fx_susdcny" rs)).
  rewrite (sample_rate_line xs rs "" Hx Hr).
  reflexivity.
Qed.

Lemma fetch_endpoint_shape_witness :
  fetch_body decimal_float
    (Response (sample_line "hf_XAU" "2034.50,2034.10"
               ++ sample_line "fx_susdcny" "23:29:50,7.1534")) =
  (xau_first <- index (split comma "2034.50,2034.10") 0 ;;
   xau_price <- py_float decimal_float xau_first ;;
   rate_second <- index (split comma "23:29:50,7.1534") 1 ;;
   usd_cny_rate <- py_float decimal_float rate_second ;;
   Ok (xau_price, usd_cny_rate)).
Proof.
  exact (fetch_endpoint_shape decimal_float "2034.50,2034.10" "23:29:50,7.1534"
           eq_refl eq_refl).
Defined.

Lemma split_single sep s w : split sep s = [w] -> contains sep s = false.
Proof.
  intros H. pose proof (join_split sep s) as J.
  pose proof (split_parts_clean sep s) as C. rewrite H in J, C.
  simpl in J. subst w. now inversion C.
Qed.

(** X10: an IndexError can only come from the currency line: the commodity
    line always has a field 0, and the error means that the currency line
    was found and holds no comma. *)
Theorem index_error_cause (float_of_str : string -> option float)
  (net : http_result) :
  fetch_body float_of_str net = Raise IndexError ->
  exists text line,
    net = Response text /\
    re_search opening_rate closing text = Some line /\
    contains comma line = false.
Proof.
  unfold fetch_body, py_float, index, group1, requests_get.
  destruct net as [|text]; cbn [bind]; [discriminate|].
  destruct (re_search opening_xau closing text) as [xl|]; cbn [bind];
    [|discriminate].
  pose proof (split_nonempty comma xl) as NE.
  destruct (split comma xl) as [|xf ?]; [congruence|]. cbn [nth_error bind].
  destruct (float_of_str xf); cbn [bind]; [|discriminate].
  destruct (re_search opening_rate closing text) as [rl|] eqn:R; cbn [bind];
    [|discriminate].
  destruct (split comma rl) as [|w [|w' ws]] eqn:S; cbn [nth_error bind].
  - exfalso. exact (split_nonempty _ _ S).
  - intros _. exists text, rl. split; [reflexivity|]. split; [exact R|].
    now apply split_single with (w := w).
  - destruct (float_of_str w'); discriminate.
Qed.

Lemma index_error_cause_witness :
  exists text line,
    Response (sample_line "hf_XAU" "2034.50" ++ sample_line "fx_susdcny" "7.1534")
    = Response text /\
    re_search opening_rate closing text = Some line /\
    contains comma line = false.
Proof.
  exact (index_error_cause decimal_float
           (Response (sample_line "hf_XAU" "2034.50"
                      ++ sample_line "fx_susdcny" "7.1534")) eq_refl).
Defined.

Close Scope string_scope.
